(** * A shallow embedding of the JIT-access transpiler (transpiler.h)

    The code generator of the repository lowers the AST of [parser.h] to a
    flat text of bytecode instructions.  The embedding keeps the data of the
    C++ code: the instruction buffer is a [string] that only grows by
    appending, register names are strings, the occupancy table is an array of
    eight booleans and the three symbol tables are finite maps with string
    keys.  Failing library calls ([std::stoi] throwing, an index outside the
    array, a cast to the wrong node class) are results of the monad the
    generators run in. *)

From Stdlib Require Import ZArith NArith Lia Ascii String DecimalString.
From stdpp Require Import gmap strings list vector.

Open Scope string_scope.
Set Warnings "-register-all".


(** ** Text helpers: the [std::string] operations the generator uses *)

Module Text.

(** The line terminator the generator writes as "\n". *)
Definition NL : string := String "010" "".

(** [std::to_string] on the unsigned and small signed integers of the code. *)
Definition to_string (n : N) : string :=
  NilZero.string_of_uint (N.to_uint n).

(** [s.starts_with(p)]. *)
Definition starts_with (p s : string) : bool := String.prefix p s.

(** [s.substr(pos)]: the suffix from [pos] to the end. *)
Fixpoint substr (pos : nat) (s : string) : string :=
  match pos, s with
  | O, _ => s
  | S p, String _ s' => substr p s'
  | S _, EmptyString => EmptyString
  end.

(** [isspace] in the C locale, as [std::stoi] and the regex class \s use it. *)
Definition isspace (c : ascii) : bool :=
  let n := nat_of_ascii c in
  (n =? 32)%nat || ((9 <=? n)%nat && (n <=? 13)%nat).

Definition isdigit (c : ascii) : bool :=
  let n := nat_of_ascii c in (48 <=? n)%nat && (n <=? 57)%nat.

(** The class [a-zA-Z0-9_] of the label pattern. *)
Definition is_label_char (c : ascii) : bool :=
  let n := nat_of_ascii c in
  ((97 <=? n)%nat && (n <=? 122)%nat) || ((65 <=? n)%nat && (n <=? 90)%nat)
  || isdigit c || (n =? 95)%nat.

Definition digit_value (c : ascii) : N := N.of_nat (nat_of_ascii c - 48).

Fixpoint skip_space (s : string) : string :=
  match s with
  | String c s' => if isspace c then skip_space s' else s
  | EmptyString => EmptyString
  end.

(** The longest prefix of characters satisfying [p], and what follows it. *)
Fixpoint span (p : ascii -> bool) (s : string) : string * string :=
  match s with
  | String c s' =>
      if p c then let '(a, b) := span p s' in (String c a, b)
      else (EmptyString, s)
  | EmptyString => (EmptyString, EmptyString)
  end.

Fixpoint decimal (acc : N) (s : string) : N :=
  match s with
  | String c s' => decimal (10 * acc + digit_value c) s'
  | EmptyString => acc
  end.

(** The text split at every line terminator, as repeated [std::getline]
    delivers it: a final terminator does not start another line and the
    empty text has no line. *)
Fixpoint getlines (s : string) : list string :=
  match s with
  | EmptyString => []
  | String c s' =>
      if Ascii.eqb c "010" then EmptyString :: getlines s'
      else match getlines s' with
           | [] => [String c EmptyString]
           | l :: ls => String c l :: ls
           end
  end.

End Text.

Import Text.

(** ** The abstract syntax tree of parser.h *)

Module Parser.

Inductive BinOpType := ADD | SUB | MUL | LT | GT | LE | GE | EQ | NE | ASS.

Inductive SysCall_Type := OPEN | WRITE | READ | IOCTL.

(** The expression classes, one constructor per [NodeType] tag an
    [ExprNode*] can carry.  [EXPR] is the plain [ExprNode] the parser wraps
    around a parenthesised expression and around an expression statement. *)
Inductive ExprNode :=
| EXPR (expr : ExprNode)
| IDENTIFIER (value : string)
| NUMBER (value : N)
| BIN_OP (lhs rhs : ExprNode) (op : BinOpType)
| FUNC_CALL (identifier : string) (args : list ExprNode)
| SYS_CALL (syscall : SysCall_Type) (args : list ExprNode).

(** Statements.  [RETURN None] and [BRANCH _ _ None] are the null [expr]
    and [else_statement] pointers; [STATEMENT e] is an expression node in
    statement position, whose tag is the tag of [e]. *)
Inductive StatementNode :=
| SCOPE (statements : list StatementNode)
| RETURN (expr : option ExprNode)
| BRANCH (condition : ExprNode) (statement : StatementNode)
         (else_statement : option StatementNode)
| STATEMENT (e : ExprNode).

Record PrivObjNode := { po_identifier : string; po_address : N }.

Record FuncDefNode :=
  { fd_identifier : string; fd_params : list string; fd_scope : list StatementNode }.

Record ProgramNode :=
  { privObjNodes : list PrivObjNode; funcDefNodes : list FuncDefNode }.

End Parser.

Import Parser.

(** ** The transpiler state and the monad of the generators *)

Definition NUMBER_REGISTERS : nat := 8.
Definition START_OF_STACK : N := 9216.
Definition RBP : N := 7.
Definition RSP : N := 6.
Definition PRIV_PREFIX : string := "privileged-".
Definition LOAD_CYCLES : string := "30".
Definition STORE_CYCLES : string := "20".

(** The members of [class transpiler], the [output_string] every generator
    receives by reference, and the lines [printf] wrote. *)
Record transpiler := mkTranspiler {
  privilegedObjects : gmap string bool;
  occupiedRegister : vec bool NUMBER_REGISTERS;
  registers : gmap string string;
  privilegedAddresses : gmap string string;
  output_string : string;
  printed : list string
}.

Inductive exception := invalid_argument | out_of_range.

(** A generator either returns, or lets a [std::stoi] exception escape (the
    process terminates, nothing is written), or runs into behaviour the
    language leaves undefined. *)
Inductive outcome (A : Type) :=
| Ok (a : A)
| Throw (e : exception)
| Undefined.
Arguments Ok {A} a.
Arguments Throw {A} e.
Arguments Undefined {A}.

Definition M (A : Type) : Type := transpiler -> outcome (A * transpiler).

Definition ret {A} (a : A) : M A := fun st => Ok (a, st).

Definition bind {A B} (c : M A) (k : A -> M B) : M B :=
  fun st => match c st with
            | Ok (a, st') => k a st'
            | Throw e => Throw e
            | Undefined => Undefined
            end.

Declare Scope gen_scope.
Delimit Scope gen_scope with gen.
Notation "'let*' x := c 'in' k" := (bind c (fun x => k))
  (at level 10, x name, c at level 100, k at level 200) : gen_scope.
Notation "c ;; k" := (bind c (fun _ => k))
  (at level 100, k at level 200, right associativity) : gen_scope.
Open Scope gen_scope.

Definition undefined {A} : M A := fun _ => Undefined.

(** [output_string += s]. *)
Definition emit (s : string) : M unit :=
  fun st => Ok (tt, mkTranspiler (privilegedObjects st) (occupiedRegister st)
                      (registers st) (privilegedAddresses st)
                      (output_string st +:+ s) (printed st)).

(** [printf(s)]. *)
Definition printf (s : string) : M unit :=
  fun st => Ok (tt, mkTranspiler (privilegedObjects st) (occupiedRegister st)
                      (registers st) (privilegedAddresses st)
                      (output_string st) (printed st ++ [s])).

Definition set_occupiedRegister (v : vec bool NUMBER_REGISTERS) : M unit :=
  fun st => Ok (tt, mkTranspiler (privilegedObjects st) v
                      (registers st) (privilegedAddresses st)
                      (output_string st) (printed st)).

Definition set_registers (m : gmap string string) : M unit :=
  fun st => Ok (tt, mkTranspiler (privilegedObjects st) (occupiedRegister st)
                      m (privilegedAddresses st)
                      (output_string st) (printed st)).

(** [std::stoi]: leading white space, an optional sign, then decimal digits;
    no digit throws [invalid_argument], a value outside [int] throws
    [out_of_range]; what follows the digits is ignored. *)
Definition stoi (s : string) : outcome Z :=
  let s1 := skip_space s in
  let '(negative, s2) :=
    match s1 with
    | String "-" r => (true, r)
    | String "+" r => (false, r)
    | _ => (false, s1)
    end in
  match fst (span isdigit s2) with
  | EmptyString => Throw invalid_argument
  | ds =>
      let v := Z.of_N (decimal 0 ds) in
      let z := if negative then (- v)%Z else v in
      if ((-2147483648 <=? z) && (z <=? 2147483647))%Z then Ok z
      else Throw out_of_range
  end.

(** An index into [occupiedRegister]; outside 0..7 the access is undefined. *)
Fixpoint fin_of_nat (n i : nat) : option (fin n) :=
  match n with
  | O => None
  | S n' => match i with
            | O => Some Fin.F1
            | S i' => match fin_of_nat n' i' with
                      | Some k => Some (Fin.FS k)
                      | None => None
                      end
            end
  end.

(** [occupiedRegister[i] = b] for an [int] index. *)
Definition mark (i : Z) (b : bool) : M unit :=
  fun st =>
    if (i <? 0)%Z then Undefined
    else match fin_of_nat NUMBER_REGISTERS (Z.to_nat i) with
         | Some k => set_occupiedRegister (vinsert k b (occupiedRegister st)) st
         | None => Undefined
         end.

(** [occupiedRegister[std::stoi(r)] = b]. *)
Definition mark_register (r : string) (b : bool) : M unit :=
  fun st => match stoi r with
            | Ok i => mark i b st
            | Throw e => Throw e
            | Undefined => Undefined
            end.

(** [occupiedRegister[i]] read. *)
Definition occupied (i : nat) : M bool :=
  fun st => match vec_to_list (occupiedRegister st) !! i with
            | Some b => Ok (b, st)
            | None => Undefined
            end.


Definition get_occupiedRegister : M (vec bool NUMBER_REGISTERS) :=
  fun st => Ok (occupiedRegister st, st).
Definition get_registers : M (gmap string string) :=
  fun st => Ok (registers st, st).

(** [static_cast<IdentifierNode*>(e)->value]: reading the member of a node
    that is not an [IdentifierNode] is undefined. *)
Definition identifier_value (e : ExprNode) : M string :=
  match e with
  | IDENTIFIER value => ret value
  | _ => undefined
  end.

(** [registers[key] = r]. *)
Definition bind_register (key r : string) : M unit :=
  let* regs := get_registers in set_registers (<[key := r]> regs).

(** ** The register allocator *)

(** The loop of [get_free_register]: indices [n-1] down to 0. *)
Fixpoint scan_free (n : nat) (occ : vec bool NUMBER_REGISTERS) : option nat :=
  match n with
  | O => None
  | S i => match vec_to_list occ !! i with
           | Some false => Some i
           | _ => scan_free i occ
           end
  end.

Definition get_free_register : M string :=
  fun st => match scan_free NUMBER_REGISTERS (occupiedRegister st) with
            | Some i => ret (to_string (N.of_nat i)) st
            | None => (printf ("Error: no free registers" +:+ NL) ;; ret "Error") st
            end.

(** ** Saving and restoring registers around a call *)

Definition is_occupied (occ : vec bool NUMBER_REGISTERS) (i : nat) : bool :=
  match vec_to_list occ !! i with Some b => b | None => false end.

Definition push_registers (occ : vec bool NUMBER_REGISTERS) : M string :=
  let* free_register := get_free_register in
  let saved :=
    fold_left
      (fun acc i =>
         if is_occupied occ i then
           acc +:+ "store " +:+ to_string RSP +:+ " " +:+ to_string (N.of_nat i) +:+ NL
               +:+ "add " +:+ to_string RSP +:+ " " +:+ free_register +:+ " " +:+ to_string RSP +:+ NL
               +:+ "add " +:+ to_string RBP +:+ " " +:+ free_register +:+ " " +:+ to_string RBP +:+ NL
         else acc)
      (seq 1 (NUMBER_REGISTERS - 1))
      ("li " +:+ free_register +:+ " 1" +:+ NL) in
  ret (saved
       +:+ "store " +:+ to_string RSP +:+ " " +:+ to_string RSP +:+ NL
       +:+ "add " +:+ to_string RSP +:+ " " +:+ free_register +:+ " " +:+ to_string RSP +:+ NL
       +:+ "store " +:+ to_string RSP +:+ " " +:+ to_string RBP +:+ NL
       +:+ "mul " +:+ to_string RSP +:+ " " +:+ free_register +:+ " " +:+ to_string RSP +:+ NL).

Definition pop_registers (occ : vec bool NUMBER_REGISTERS) (label : string) : M string :=
  let* free_register := get_free_register in
  let restored :=
    fold_left
      (fun acc i =>
         if is_occupied occ i then
           acc +:+ "load " +:+ to_string RSP +:+ " " +:+ to_string (N.of_nat i) +:+ NL
               +:+ "sub " +:+ to_string RSP +:+ " " +:+ free_register +:+ " " +:+ to_string RSP +:+ NL
               +:+ "sub " +:+ to_string RBP +:+ " " +:+ free_register +:+ " " +:+ to_string RBP +:+ NL
         else acc)
      (rev (seq 1 (NUMBER_REGISTERS - 1)))
      ("li " +:+ free_register +:+ " 1" +:+ NL) in
  ret (restored
       +:+ "store " +:+ to_string RSP +:+ " " +:+ to_string RSP +:+ NL
       +:+ "sub " +:+ to_string RSP +:+ " " +:+ free_register +:+ " " +:+ to_string RSP +:+ NL
       +:+ "load " +:+ to_string RSP +:+ " " +:+ to_string RBP +:+ NL).

(** ** The expression generator *)

(** The two blocks of the [default] arm of the operator switch that turn a
    privileged descriptor into a register holding the loaded value; the code
    has one copy for [lhs] and one for [rhs], alike up to the names. *)
Definition load_operand (node : ExprNode) (descriptor : string) : M string :=
  if starts_with PRIV_PREFIX descriptor then
    let* free_register := get_free_register in
    mark_register free_register true ;;
    emit ("li " +:+ free_register +:+ " " +:+ substr (String.length PRIV_PREFIX) descriptor +:+ NL) ;;
    let* cycles_register := get_free_register in
    mark_register free_register false ;;
    emit ("li " +:+ cycles_register +:+ " " +:+ LOAD_CYCLES +:+ NL) ;;
    emit ("request " +:+ free_register +:+ " " +:+ cycles_register +:+ NL) ;;
    emit ("load " +:+ free_register +:+ " " +:+ free_register +:+ NL) ;;
    let* name := identifier_value node in
    bind_register name free_register ;;
    ret free_register
  else ret descriptor.

(** The inner switch over the arithmetic and relational operators. *)
Definition transpile_operator (op : BinOpType) (left_reg right_reg : string) : M string :=
  match op with
  | ADD =>
      let* free_register := get_free_register in
      emit ("add " +:+ left_reg +:+ " " +:+ right_reg +:+ " " +:+ free_register +:+ NL) ;;
      mark_register free_register true ;;
      ret free_register
  | SUB =>
      let* free_register := get_free_register in
      emit ("sub " +:+ left_reg +:+ " " +:+ right_reg +:+ " " +:+ free_register +:+ NL) ;;
      mark_register free_register true ;;
      ret free_register
  | MUL =>
      let* free_register := get_free_register in
      emit ("mul " +:+ left_reg +:+ " " +:+ right_reg +:+ " " +:+ free_register +:+ NL) ;;
      mark_register free_register true ;;
      ret free_register
  | LT =>
      let* free_register := get_free_register in
      emit ("cmpGT " +:+ right_reg +:+ " " +:+ left_reg +:+ " " +:+ free_register +:+ NL) ;;
      mark_register free_register true ;;
      ret free_register
  | GT =>
      let* free_register := get_free_register in
      emit ("cmpGT " +:+ left_reg +:+ " " +:+ right_reg +:+ " " +:+ free_register +:+ NL) ;;
      mark_register free_register true ;;
      ret free_register
  | LE =>
      let* free_register := get_free_register in
      mark_register free_register true ;;
      emit ("cmpGT " +:+ left_reg +:+ " " +:+ right_reg +:+ " " +:+ free_register +:+ NL) ;;
      let* free_register_one := get_free_register in
      emit ("li " +:+ free_register_one +:+ " 1" +:+ NL) ;;
      emit ("sub " +:+ free_register +:+ " " +:+ free_register_one +:+ " " +:+ free_register +:+ NL) ;;
      ret free_register
  | GE =>
      let* free_register := get_free_register in
      mark_register free_register true ;;
      emit ("cmpGT " +:+ right_reg +:+ " " +:+ left_reg +:+ " " +:+ free_register +:+ NL) ;;
      let* free_register_one := get_free_register in
      emit ("li " +:+ free_register_one +:+ " 1" +:+ NL) ;;
      emit ("sub " +:+ free_register +:+ " " +:+ free_register_one +:+ " " +:+ free_register +:+ NL) ;;
      ret free_register
  | EQ =>
      let* free_register := get_free_register in
      emit ("sub " +:+ left_reg +:+ " " +:+ right_reg +:+ " " +:+ free_register +:+ NL) ;;
      mark_register free_register true ;;
      let* free_register_one := get_free_register in
      emit ("li " +:+ free_register_one +:+ " 1" +:+ NL) ;;
      emit ("cmpGT " +:+ free_register_one +:+ " " +:+ free_register +:+ " " +:+ free_register +:+ NL) ;;
      ret free_register
  | NE =>
      let* free_register := get_free_register in
      emit ("sub " +:+ left_reg +:+ " " +:+ right_reg +:+ " " +:+ free_register +:+ NL) ;;
      mark_register free_register true ;;
      ret free_register
  | ASS => ret "Error: Expression type was not found"
  end.

(** The [ASS] arm, after both operands were generated. *)
Definition transpile_assignment (lhs : ExprNode) (lhs_register rhs_register : string) : M string :=
  if starts_with PRIV_PREFIX lhs_register then
    if starts_with PRIV_PREFIX rhs_register then
      let* free_register_rhs := get_free_register in
      mark_register free_register_rhs true ;;
      emit ("li " +:+ free_register_rhs +:+ " " +:+ substr (String.length PRIV_PREFIX) rhs_register +:+ NL) ;;
      let* free_register_cycles := get_free_register in
      mark_register free_register_cycles true ;;
      emit ("li " +:+ free_register_cycles +:+ " " +:+ LOAD_CYCLES +:+ NL) ;;
      emit ("request " +:+ free_register_rhs +:+ " " +:+ free_register_cycles +:+ NL) ;;
      emit ("load " +:+ free_register_rhs +:+ free_register_rhs +:+ NL) ;;
      let* free_register_lhs := get_free_register in
      mark_register free_register_cycles false ;;
      emit ("li " +:+ free_register_lhs +:+ " " +:+ substr (String.length PRIV_PREFIX) lhs_register +:+ NL) ;;
      emit ("li " +:+ free_register_cycles +:+ " " +:+ STORE_CYCLES +:+ NL) ;;
      emit ("request " +:+ free_register_lhs +:+ " " +:+ free_register_cycles +:+ NL) ;;
      emit ("store " +:+ free_register_lhs +:+ " " +:+ free_register_rhs +:+ NL) ;;
      let* name := identifier_value lhs in
      bind_register name free_register_rhs ;;
      ret free_register_rhs
    else
      let* free_register_lhs := get_free_register in
      mark_register free_register_lhs true ;;
      emit ("li " +:+ free_register_lhs +:+ " " +:+ substr (String.length PRIV_PREFIX) lhs_register +:+ NL) ;;
      let* free_register_cycles := get_free_register in
      mark_register free_register_lhs false ;;
      emit ("li " +:+ free_register_cycles +:+ " " +:+ STORE_CYCLES +:+ NL) ;;
      emit ("request " +:+ free_register_lhs +:+ " " +:+ free_register_cycles +:+ NL) ;;
      emit ("store " +:+ free_register_lhs +:+ " " +:+ rhs_register +:+ NL) ;;
      let* name := identifier_value lhs in
      bind_register name rhs_register ;;
      ret rhs_register
  else if starts_with PRIV_PREFIX rhs_register then
    let* free_register_rhs := get_free_register in
    emit ("li " +:+ free_register_rhs +:+ " " +:+ substr (String.length PRIV_PREFIX) rhs_register +:+ NL) ;;
    let* free_register_cycles := get_free_register in
    emit ("li " +:+ free_register_cycles +:+ " " +:+ LOAD_CYCLES +:+ NL) ;;
    emit ("request " +:+ free_register_rhs +:+ " " +:+ free_register_cycles +:+ NL) ;;
    emit ("load " +:+ free_register_rhs +:+ lhs_register +:+ NL) ;;
    ret lhs_register
  else
    emit ("li " +:+ lhs_register +:+ " 0" +:+ NL) ;;
    emit ("add " +:+ lhs_register +:+ " " +:+ rhs_register +:+ " " +:+ lhs_register +:+ NL) ;;
    mark_register rhs_register false ;;
    ret lhs_register.

(** The [IDENTIFIER] arm.  [privilegedObjects[value]] and
    [privilegedAddresses[value]] also insert a default entry for a missing
    key; no later read can tell that entry from a missing one, so the maps
    are read with their defaults ([false], the empty string) and left as
    they are. *)
Definition transpile_identifier (value : string) : M string :=
  fun st =>
    if default false (privilegedObjects st !! value) then
      ret (PRIV_PREFIX +:+ default "" (privilegedAddresses st !! value)) st
    else
      match default "" (registers st !! value) with
      | EmptyString =>
          (let* value_register := get_free_register in
           mark_register value_register true ;;
           bind_register value value_register ;;
           ret value_register) st
      | value_register => ret value_register st
      end.

Definition transpile_number (value : N) : M string :=
  let* free_register := get_free_register in
  emit ("li " +:+ free_register +:+ " " +:+ to_string value +:+ NL) ;;
  mark_register free_register true ;;
  ret free_register.

(** The tail of the [SYS_CALL] arm: the switch over the system call. *)
Definition transpile_syscall_number (syscall : SysCall_Type) : M string :=
  let* syscall_num_reg := get_free_register in
  match syscall with
  | OPEN =>
      emit ("li " +:+ syscall_num_reg +:+ " " +:+ "0" +:+ NL) ;;
      mark_register syscall_num_reg true ;;
      ret "0"
  | WRITE =>
      let* free_register := get_free_register in
      emit ("li " +:+ free_register +:+ " 0" +:+ NL) ;;
      mark_register free_register true ;;
      ret "1"
  | READ =>
      let* free_register := get_free_register in
      emit ("li " +:+ free_register +:+ " 0" +:+ NL) ;;
      mark_register free_register true ;;
      ret "2"
  | IOCTL =>
      let* free_register := get_free_register in
      emit ("li " +:+ free_register +:+ " 0" +:+ NL) ;;
      mark_register free_register true ;;
      ret "3"
  end.

Section Recursion.

(** The recursive call, abstracted so that the argument loops below are
    plain list recursions the expression generator can use on its own
    subterms. *)
Variable transpile_expr : ExprNode -> M string.

(** The argument loop of the [SYS_CALL] arm.  In the last statement of the
    body the call of [transpile_expr] is an operand of the text that is
    appended, so what the call appends comes first. *)
Fixpoint syscall_arguments (i : nat) (args : list ExprNode) : M unit :=
  match args with
  | [] => ret tt
  | arg :: rest =>
      let* taken := occupied i in
      (if taken then
         let* name := identifier_value arg in
         let* regs := get_registers in
         match regs !! name with
         | None => undefined
         | Some _ =>
             let val := to_string (N.of_nat i) in
             set_registers (<[name := val]> regs) ;;
             let* free_register := get_free_register in
             bind_register val free_register ;;
             emit ("li " +:+ free_register +:+ " 0" +:+ NL) ;;
             emit ("add " +:+ free_register +:+ " " +:+ to_string (N.of_nat i) +:+ " "
                          +:+ free_register +:+ NL)
         end
       else mark (Z.of_nat i) true) ;;
      emit ("li " +:+ to_string (N.of_nat i) +:+ " 0" +:+ NL) ;;
      let* value_register := transpile_expr arg in
      emit ("add " +:+ to_string (N.of_nat i) +:+ " " +:+ value_register +:+ " "
                   +:+ to_string (N.of_nat i) +:+ NL) ;;
      syscall_arguments (S i) rest
  end.

(** The argument loop of [transpile_func_call]. *)
Fixpoint call_arguments (i : nat) (args : list ExprNode) : M unit :=
  match args with
  | [] => ret tt
  | node :: rest =>
      let* result_register := transpile_expr node in
      emit ("li " +:+ to_string (N.of_nat (i + 2)) +:+ " 0" +:+ NL) ;;
      emit ("add " +:+ to_string (N.of_nat (i + 2)) +:+ result_register
                   +:+ to_string (N.of_nat (i + 2)) +:+ NL) ;;
      mark_register result_register false ;;
      mark (Z.of_nat (i + 2)) true ;;
      call_arguments (S i) rest
  end.

Definition transpile_func_call_body (funcName : string) (args : list ExprNode) : M string :=
  let* occ := get_occupiedRegister in
  let* pushed := push_registers occ in
  emit pushed ;;
  let* occ' := get_occupiedRegister in
  let* pop_instructions := pop_registers occ' funcName in
  call_arguments 0 args ;;
  emit ("li 0 0" +:+ NL) ;;
  emit ("li 1 " +:+ funcName +:+ NL) ;;
  emit ("jmpEqZ 0 1" +:+ NL) ;;
  emit pop_instructions ;;
  ret "0".

Definition transpile_sys_call_body (syscall : SysCall_Type) (args : list ExprNode) : M string :=
  syscall_arguments 0 args ;;
  let* syscall_number := transpile_syscall_number syscall in
  emit ("syscall " +:+ syscall_number) ;;
  ret "0".

End Recursion.

Fixpoint transpile_expr (expr : ExprNode) : M string :=
  match expr with
  | EXPR e => transpile_expr e
  | FUNC_CALL identifier args => transpile_func_call_body transpile_expr identifier args
  | SYS_CALL syscall args => transpile_sys_call_body transpile_expr syscall args
  | NUMBER value => transpile_number value
  | IDENTIFIER value => transpile_identifier value
  | BIN_OP lhs rhs op =>
      let* lhs_register := transpile_expr lhs in
      let* rhs_register := transpile_expr rhs in
      match op with
      | ASS => transpile_assignment lhs lhs_register rhs_register
      | _ =>
          let* left_reg := load_operand lhs lhs_register in
          let* right_reg := load_operand rhs rhs_register in
          transpile_operator op left_reg right_reg
      end
  end.

Definition transpile_func_call : string -> list ExprNode -> M string :=
  transpile_func_call_body transpile_expr.

(** ** Statements *)

Definition transpile_return (expr : option ExprNode) : M string :=
  match expr with
  | Some e =>
      let* result_register := transpile_expr e in
      emit ("li 0 0" +:+ NL) ;;
      emit ("add " +:+ result_register +:+ " 0 0" +:+ NL) ;;
      emit ("li 1 0" +:+ NL) ;;
      mark_register result_register false ;;
      mark 0 true
  | None => ret tt
  end ;;
  emit ("exit" +:+ NL) ;;
  ret "0".

(** [transpile_scope] and [transpile_branch] call each other through the
    switch over the tag of a statement.  [transpile_statement unknown s] is
    one pass through such a switch for the node [s]: the arm for its tag, or
    the [default] arm printing [unknown] when [s] is an expression node whose
    tag is not [EXPR].  The scope loop and the then-part print one message,
    the else-part another. *)
Fixpoint transpile_statement (unknown : string) (s : StatementNode) : M unit :=
  match s with
  | SCOPE statements =>
      (fix each (l : list StatementNode) : M unit :=
         match l with
         | [] => ret tt
         | statement :: l' =>
             transpile_statement ("Error: unknown statement type" +:+ NL) statement ;;
             each l'
         end) statements
  | RETURN expr => transpile_return expr ;; ret tt
  | BRANCH condition statement else_statement =>
      let* reg := transpile_expr condition in
      let* free_register_label := get_free_register in
      emit ("li " +:+ free_register_label +:+ " ELSE_LABEL" +:+ NL) ;;
      emit ("jmpEqZ " +:+ reg +:+ " " +:+ free_register_label +:+ " " +:+ NL) ;;
      transpile_statement ("Error: unknown statement type" +:+ NL) statement ;;
      let* free_register := get_free_register in
      mark_register free_register true ;;
      let* free_register_label := get_free_register in
      mark_register free_register false ;;
      emit ("li " +:+ free_register +:+ " 0" +:+ NL) ;;
      emit ("li " +:+ free_register_label +:+ " END_LABEL" +:+ NL) ;;
      emit ("jmpEqZ " +:+ free_register +:+ " " +:+ free_register_label +:+ " " +:+ NL) ;;
      emit "ELSE_LABEL:" ;;
      match else_statement with
      | Some s2 => transpile_statement ("Error: unknown else_statement type" +:+ NL) s2
      | None => ret tt
      end ;;
      emit "END_LABEL:" ;;
      mark_register free_register true
  | STATEMENT e =>
      match e with
      | EXPR _ => transpile_expr e ;; ret tt
      | _ => printf unknown
      end
  end.

Definition transpile_scope (statements : list StatementNode) : M unit :=
  transpile_statement EmptyString (SCOPE statements).


(** ** Label resolution *)

(** [std::regex_search(line, match, "^([a-zA-Z0-9_]+):")]: the label a line
    begins with. *)
Definition line_label (line : string) : option string :=
  match span is_label_char line with
  | (EmptyString, _) => None
  | (name, String ":" _) => Some name
  | _ => None
  end.

(** The first loop: [labels[match[1]] = line_number] for every line. *)
Fixpoint scan_labels (line_number : N) (lines : list string) (labels : gmap string N)
  : gmap string N :=
  match lines with
  | [] => labels
  | line :: rest =>
      scan_labels (line_number + 1) rest
        match line_label line with
        | Some name => <[name := line_number]> labels
        | None => labels
        end
  end.

Definition collect_labels (output : string) : gmap string N :=
  scan_labels 1 (getlines output) ∅.

(** [s.find(pat, pos)]. *)
Definition find (pat : string) (pos : nat) (s : string) : option nat :=
  String.index pos pat s.

(** [s.replace(pos, len, "")]. *)
Definition erase (pos len : nat) (s : string) : string :=
  String.substring 0 pos s +:+ substr (pos + len) s.

(** The inner [while] loop that removes every [label:]; each round removes
    at least one character, so [fuel] beyond the length of the text is never
    used up. *)
Fixpoint erase_markers (fuel : nat) (label_str : string) (step : nat) (pos : nat)
    (s : string) : string :=
  match fuel with
  | O => s
  | S fuel' =>
      match find label_str pos s with
      | Some p =>
          erase_markers fuel' label_str step (p + step)
            (erase p (String.length label_str) s)
      | None => s
      end
  end.

(** A match of [li\s+(\d+)\s+label] at the start of [s]: the digits of the
    group and the length of the match.  Every quantified class is followed by
    a character outside it, so the greedy match is the only one. *)
Definition match_li (label s : string) : option (string * nat) :=
  if starts_with "li" s then
    let '(ws1, r1) := span isspace (substr 2 s) in
    let '(ds, r2) := span isdigit r1 in
    let '(ws2, r3) := span isspace r2 in
    if (0 <? String.length ws1)%nat && (0 <? String.length ds)%nat
       && (0 <? String.length ws2)%nat && starts_with label r3
    then Some (ds, 2 + String.length ws1 + String.length ds + String.length ws2
                     + String.length label)%nat
    else None
  else None.

(** [std::regex_replace(s, li\s+(\d+)\s+label, "li $1 " + number)]: every
    match from left to right, matches do not overlap; [skip] counts the
    characters of the current match still to pass over. *)
Fixpoint regex_replace_li (label number : string) (skip : nat) (s : string) : string :=
  match s with
  | EmptyString => EmptyString
  | String c s' =>
      match skip with
      | S k => regex_replace_li label number k s'
      | O =>
          match match_li label s with
          | Some (ds, len) =>
              "li " +:+ ds +:+ " " +:+ number
                    +:+ regex_replace_li label number (len - 1) s'
          | None => String c (regex_replace_li label number 0 s')
          end
      end
  end.

(** The body of the second loop for one entry of [labels]. *)
Definition replace_label (output_string : string) (label : string * N) : string :=
  let label_str := fst label +:+ ":" in
  let number := to_string (snd label) in
  let erased :=
    erase_markers (S (String.length output_string)) label_str
      (String.length number) 0 output_string in
  regex_replace_li (fst label) number 0 erased.

(** The second loop, over the entries in the order [order]. *)
Definition replace_jump_labels_in (order : list (string * N)) (output_string : string)
  : string :=
  fold_left replace_label order output_string.

(** [std::unordered_map] leaves the order of iteration open.  The pass below
    takes the entries as [map_to_list] lists them; [replace_jump_labels_in]
    takes any other order, and [order_irrelevant] says that all of them give
    one text. *)
Definition replace_jump_labels (output_string : string) : string :=
  replace_jump_labels_in (map_to_list (collect_labels output_string)) output_string.

Definition order_irrelevant (output_string : string) : bool :=
  forallb
    (fun order => String.eqb (replace_jump_labels_in order output_string)
                             (replace_jump_labels output_string))
    (permutations (map_to_list (collect_labels output_string))).

(** ** The entry point *)

(** The parameter loop; [false] is the early [return] after the message. *)
Fixpoint bind_parameters (num_param : nat) (params : list string) : M bool :=
  match params with
  | [] => ret true
  | parameter :: rest =>
      if (NUMBER_REGISTERS <=? num_param)%nat then
        printf ("Error: too many parameters" +:+ NL) ;; ret false
      else
        bind_register parameter (String (ascii_of_nat num_param) EmptyString) ;;
        mark (Z.of_nat num_param) true ;;
        bind_parameters (S num_param) rest
  end.

(** The loop over the function definitions. *)
Fixpoint transpile_functions (funcDefNodes : list FuncDefNode) : M bool :=
  match funcDefNodes with
  | [] => ret true
  | funcDefNode :: rest =>
      let funcName := fd_identifier funcDefNode in
      emit (funcName +:+ ":") ;;
      (if String.eqb funcName "main" then
         emit ("li " +:+ to_string RBP +:+ " " +:+ to_string START_OF_STACK +:+ NL) ;;
         emit ("li " +:+ to_string RSP +:+ " " +:+ to_string START_OF_STACK +:+ NL)
       else ret tt) ;;
      set_occupiedRegister (vreplicate NUMBER_REGISTERS false) ;;
      set_registers ∅ ;;
      mark 7 true ;;
      mark 6 true ;;
      let* bound := bind_parameters 0 (fd_params funcDefNode) in
      if bound then
        transpile_scope (fd_scope funcDefNode) ;;
        transpile_functions rest
      else ret false
  end.

(** The object [main] constructs, after the first loop of [transpile] filled
    the two tables of privileged objects. *)
Definition initial (root : ProgramNode) : transpiler :=
  fold_left
    (fun st privObjNode =>
       mkTranspiler
         (<[po_identifier privObjNode := true]> (privilegedObjects st))
         (occupiedRegister st) (registers st)
         (<[po_identifier privObjNode := to_string (po_address privObjNode)]>
            (privilegedAddresses st))
         (output_string st) (printed st))
    (privObjNodes root)
    (mkTranspiler ∅ (vreplicate NUMBER_REGISTERS false) ∅ ∅ EmptyString []).

(** What a run of [transpile] leaves behind. *)
Inductive run :=
| Written (file : string) (messages : list string)
| NotWritten (messages : list string)
| Terminated (e : exception)
| UndefinedBehaviour.

Definition transpile (root : ProgramNode) : run :=
  match transpile_functions (funcDefNodes root) (initial root) with
  | Ok (true, st) => Written (replace_jump_labels (output_string st)) (printed st)
  | Ok (false, st) => NotWritten (printed st)
  | Throw e => Terminated e
  | Undefined => UndefinedBehaviour
  end.

(** The instruction text as generated, before label resolution. *)
Definition stream (root : ProgramNode) : option string :=
  match transpile_functions (funcDefNodes root) (initial root) with
  | Ok (true, st) => Some (output_string st)
  | _ => None
  end.


(** ** Specification-side definitions *)

(** The highest-indexed register that is not marked occupied, said without
    the loop of the allocator: the last free index in ascending order. *)
Definition free_indices (occ : vec bool NUMBER_REGISTERS) : list nat :=
  List.filter (fun i => negb (is_occupied occ i)) (seq 0 NUMBER_REGISTERS).

Definition highest_free (occ : vec bool NUMBER_REGISTERS) : option nat :=
  last (free_indices occ).

(** The text [get_free_register] hands out for an allocator result. *)
Definition register_text (r : option nat) : string :=
  match r with
  | Some i => to_string (N.of_nat i)
  | None => "Error"
  end.

(** ** Reading the emitted text *)

(** The lines of a text that begin with the word [request]. *)
Definition request_lines (text : string) : list string :=
  List.filter (starts_with "request") (getlines text).


(** Modelled from the spec: the machine that runs the bytecode is not part of
    the sources.  The instruction set and its effect on the registers follow
    the list at the head of transpiler.h and the description of the
    instructions in the header comment of lexer.h (64-bit unsigned registers,
    overflow wraps); [cmpGT a b out] is the comparison primitive of the
    specification, 1 when register [a] is greater than register [b] and 0
    otherwise, as the comments of the relational arms read it. *)
Module Machine.

Inductive instruction :=
| Exit
| Add (a b out : N)
| Sub (a b out : N)
| Mul (a b out : N)
| Load (addr val : N)
| Store (addr val : N)
| Request (addr cycles : N)
| Li (reg imm : N)
| JmpEqZ (test next : N)
| Syscall (num : N)
| CmpGT (a b out : N).

(** The words of a line, separated by blanks. *)
Fixpoint words_from (cur : string) (s : string) : list string :=
  match s with
  | EmptyString => match cur with EmptyString => [] | _ => [cur] end
  | String c s' =>
      if Ascii.eqb c " " then
        match cur with
        | EmptyString => words_from EmptyString s'
        | _ => cur :: words_from EmptyString s'
        end
      else words_from (cur +:+ String c EmptyString) s'
  end.

Definition words (line : string) : list string := words_from EmptyString line.

(** A numeric operand: one or more decimal digits. *)
Definition number (w : string) : option N :=
  match span isdigit w with
  | (String _ _, EmptyString) => Some (decimal 0 w)
  | _ => None
  end.

(** One line of the output as an instruction of the allowed set. *)
Definition parse (line : string) : option instruction :=
  match words line with
  | ["exit"] => Some Exit
  | [op; x] =>
      match number x with
      | Some a => if String.eqb op "syscall" then Some (Syscall a) else None
      | None => None
      end
  | [op; x; y] =>
      match number x, number y with
      | Some a, Some b =>
          if String.eqb op "load" then Some (Load a b)
          else if String.eqb op "store" then Some (Store a b)
          else if String.eqb op "request" then Some (Request a b)
          else if String.eqb op "li" then Some (Li a b)
          else if String.eqb op "jmpEqZ" then Some (JmpEqZ a b)
          else None
      | _, _ => None
      end
  | [op; x; y; z] =>
      match number x, number y, number z with
      | Some a, Some b, Some c =>
          if String.eqb op "add" then Some (Add a b c)
          else if String.eqb op "sub" then Some (Sub a b c)
          else if String.eqb op "mul" then Some (Mul a b c)
          else if String.eqb op "cmpGT" then Some (CmpGT a b c)
          else None
      | _, _, _ => None
      end
  | _ => None
  end.

Definition word64 (z : Z) : Z := (z mod 2 ^ 64)%Z.

(** Modelled from the spec: the comparison primitive, 1 when the first value
    is greater than the second and 0 otherwise. *)
Definition cmpGT (x y : Z) : Z := if (y <? x)%Z then 1%Z else 0%Z.

Definition file := N -> Z.

Definition write (r : N) (v : Z) (rho : file) : file :=
  fun r' => if (r' =? r)%N then v else rho r'.

(** Modelled from the spec: the effect of the register-to-register
    instructions, as the header comment of lexer.h describes them; the others
    need the memory, the program counter or the operating system and are not
    run here. *)
Definition step (i : instruction) (rho : file) : option file :=
  match i with
  | Li r imm => Some (write r (word64 (Z.of_N imm)) rho)
  | Add a b out => Some (write out (word64 (rho a + rho b)) rho)
  | Sub a b out => Some (write out (word64 (rho a - rho b)) rho)
  | Mul a b out => Some (write out (word64 (rho a * rho b)) rho)
  | CmpGT a b out => Some (write out (cmpGT (rho a) (rho b)) rho)
  | _ => None
  end.

Fixpoint run_lines (lines : list string) (rho : file) : option file :=
  match lines with
  | [] => Some rho
  | line :: rest =>
      match parse line with
      | Some i => match step i rho with
                  | Some rho' => run_lines rest rho'
                  | None => None
                  end
      | None => None
      end
  end.

Definition run (text : string) (rho : file) : option file :=
  run_lines (getlines text) rho.

End Machine.

(** ** Programs used as concrete inputs *)

Definition statement_of (e : ExprNode) : StatementNode := STATEMENT (EXPR e).

Definition main_program (privileged : list PrivObjNode) (body : list StatementNode)
  : ProgramNode :=
  {| privObjNodes := privileged;
     funcDefNodes := [ {| fd_identifier := "main"; fd_params := []; fd_scope := body |} ] |}.

Definition privileged_object (name : string) (address : N) : PrivObjNode :=
  {| po_identifier := name; po_address := address |}.

(** [// (a,1)  // (b,2)  main() { a = b; }] *)
Definition program_copy : ProgramNode :=
  main_program [privileged_object "a" 1; privileged_object "b" 2]
    [statement_of (BIN_OP (IDENTIFIER "a") (IDENTIFIER "b") ASS)].

(** [main() { if (1) return; }] *)
Definition program_if : ProgramNode :=
  main_program [] [BRANCH (NUMBER 1) (RETURN None) None].

(** [main() { open(4,5); return; }] *)
Definition program_open_return : ProgramNode :=
  main_program [] [statement_of (SYS_CALL OPEN [NUMBER 4; NUMBER 5]); RETURN None].

(** [main() { open(4,5); }] *)
Definition program_open : ProgramNode :=
  main_program [] [statement_of (SYS_CALL OPEN [NUMBER 4; NUMBER 5])].

(** [// (a,200)  main() { d = 1; e = 2; f = 3; g = 4; a = 6; }] *)
Definition program_pressure : ProgramNode :=
  main_program [privileged_object "a" 200]
    [statement_of (BIN_OP (IDENTIFIER "d") (NUMBER 1) ASS);
     statement_of (BIN_OP (IDENTIFIER "e") (NUMBER 2) ASS);
     statement_of (BIN_OP (IDENTIFIER "f") (NUMBER 3) ASS);
     statement_of (BIN_OP (IDENTIFIER "g") (NUMBER 4) ASS);
     statement_of (BIN_OP (IDENTIFIER "a") (NUMBER 6) ASS)].

(** [f(x) { x + 1; }] *)
Definition program_parameter : ProgramNode :=
  {| privObjNodes := [];
     funcDefNodes :=
       [ {| fd_identifier := "f"; fd_params := ["x"];
            fd_scope := [statement_of (BIN_OP (IDENTIFIER "x") (NUMBER 1) ADD)] |} ] |}.



(** A text given by its lines, each with its terminator. *)
Definition unlines (lines : list string) : string :=
  fold_right (fun line rest => line +:+ NL +:+ rest) EmptyString lines.

(** ** Shapes of texts and of expressions *)

(** No line terminator occurs in the text. *)
Fixpoint no_nl (s : string) : bool :=
  match s with
  | EmptyString => true
  | String c s' => negb (Ascii.eqb c "010") && no_nl s'
  end.

(** No line of the text begins with the letter r; [at_start] tells whether
    the text itself begins a line. *)
Fixpoint no_r_lines (at_start : bool) (s : string) : bool :=
  match s with
  | EmptyString => true
  | String c s' =>
      negb (at_start && Ascii.eqb c "r") && no_r_lines (Ascii.eqb c "010") s'
  end.

Definition clean (s : string) : Prop := no_r_lines true s = true.

Definition head_ok (s : string) : bool :=
  match s with
  | EmptyString => false
  | String c _ => negb (Ascii.eqb c "r")
  end.

Definition digits_only (s : string) : bool :=
  match span isdigit s with
  | (_, EmptyString) => true
  | _ => false
  end.

(** A register text on one line that is not a privileged descriptor. *)
Definition reg_ok (r : string) : Prop :=
  no_nl r = true /\ starts_with PRIV_PREFIX r = false.

Definition registers_plain (st : transpiler) : Prop :=
  map_Forall (fun _ v => reg_ok v) (registers st).

(** The expression mentions no privileged identifier. *)
Fixpoint unprivileged (po : gmap string bool) (e : ExprNode) : bool :=
  match e with
  | EXPR e' => unprivileged po e'
  | IDENTIFIER value => negb (default false (po !! value))
  | NUMBER _ => true
  | BIN_OP lhs rhs _ => unprivileged po lhs && unprivileged po rhs
  | FUNC_CALL _ args => forallb (unprivileged po) args
  | SYS_CALL _ args => forallb (unprivileged po) args
  end.

(** The names of the called functions stay on one line, as identifiers do. *)
Fixpoint callees_on_one_line (e : ExprNode) : bool :=
  match e with
  | EXPR e' => callees_on_one_line e'
  | IDENTIFIER _ => true
  | NUMBER _ => true
  | BIN_OP lhs rhs _ => callees_on_one_line lhs && callees_on_one_line rhs
  | FUNC_CALL identifier args => no_nl identifier && forallb callees_on_one_line args
  | SYS_CALL _ args => forallb callees_on_one_line args
  end.

(** Partial correctness of a generator: from a state in [P], a returning run
    ends in [Q]. *)
Definition hoare {A} (P : transpiler -> Prop) (c : M A) (Q : A -> transpiler -> Prop)
  : Prop :=
  forall st a st', P st -> c st = Ok (a, st') -> Q a st'.

(** The invariant of generating an expression without privileged
    identifiers: the table [po] of privileged objects is fixed, every
    register text is plain, and what was appended to [base] has no line that
    begins with r. *)
Definition unprivileged_inv (po : gmap string bool) (base : string) (st : transpiler)
  : Prop :=
  privilegedObjects st = po /\ registers_plain st
  /\ exists t, output_string st = base +:+ t /\ clean t.

(** A generator that keeps the invariant [I] and returns values in [phi]. *)
Definition keeps {A} (I : transpiler -> Prop) (c : M A) (phi : A -> Prop) : Prop :=
  hoare I c (fun a st' => I st' /\ phi a).

(** A state inside the body of [main]: [d] lives in register 5. *)
Definition state_with_d : transpiler :=
  mkTranspiler ∅ [# false; false; false; false; false; true; true; true]
    (<["d" := "5"]> ∅) ∅ ("main:" +:+ unlines ["li 7 9216"; "li 6 9216"]) [].

(** The occupancy table after [occupiedRegister[i] = b] for [i] in range. *)
Definition update (i : nat) (b : bool) (occ : vec bool NUMBER_REGISTERS)
  : vec bool NUMBER_REGISTERS :=
  match fin_of_nat NUMBER_REGISTERS i with
  | Some k => vinsert k b occ
  | None => occ
  end.

(** What the result register of a relational operator holds, for operand
    values [a] and [b]: [v] is the comparison primitive applied as stated,
    except that for [<=] and [>=] only the truth value is fixed (zero
    exactly when the comparison primitive reports "greater"). *)
Definition relational_result (op : BinOpType) (a b v : Z) : Prop :=
  match op with
  | LT => v = Machine.cmpGT b a
  | GT => v = Machine.cmpGT a b
  | LE => v = 0%Z <-> Machine.cmpGT a b = 1%Z
  | GE => v = 0%Z <-> Machine.cmpGT b a = 1%Z
  | EQ => v = Machine.cmpGT 1 (Machine.word64 (a - b))
  | NE => v = Machine.word64 (a - b)
  | _ => False
  end.

Definition relational (op : BinOpType) : bool :=
  match op with
  | LT | GT | LE | GE | EQ | NE => true
  | _ => false
  end.

(** The relational operators that load the constant 1 into a second
    register. *)
Definition needs_one (op : BinOpType) : bool :=
  match op with
  | LE | GE | EQ => true
  | _ => false
  end.

(** A state in which [a] lives in register 5. *)
Definition state_with_a : transpiler :=
  mkTranspiler ∅ [# false; false; false; false; false; true; true; true]
    (<["a" := "5"]> ∅) ∅ EmptyString [].

(** The lines the switch over the relational operators writes, for operand
    texts [l] and [r], result register [f] and constant register [one]. *)
Definition relational_lines (op : BinOpType) (l r f one : string) : list string :=
  match op with
  | LT => ["cmpGT " +:+ r +:+ " " +:+ l +:+ " " +:+ f]
  | GT => ["cmpGT " +:+ l +:+ " " +:+ r +:+ " " +:+ f]
  | LE => ["cmpGT " +:+ l +:+ " " +:+ r +:+ " " +:+ f;
           "li " +:+ one +:+ " 1";
           "sub " +:+ f +:+ " " +:+ one +:+ " " +:+ f]
  | GE => ["cmpGT " +:+ r +:+ " " +:+ l +:+ " " +:+ f;
           "li " +:+ one +:+ " 1";
           "sub " +:+ f +:+ " " +:+ one +:+ " " +:+ f]
  | EQ => ["sub " +:+ l +:+ " " +:+ r +:+ " " +:+ f;
           "li " +:+ one +:+ " 1";
           "cmpGT " +:+ one +:+ " " +:+ f +:+ " " +:+ f]
  | NE => ["sub " +:+ l +:+ " " +:+ r +:+ " " +:+ f]
  | _ => []
  end.

(** The instruction text only grows: the state extends the text [base]. *)
Definition extends (base : string) (st : transpiler) : Prop :=
  exists t, output_string st = base +:+ t.



(** The symbol tables as the prologue and the generators leave them: every
    register text is plain and every address text stays on one line. *)
Definition tables_ok (st : transpiler) : Prop :=
  registers_plain st
  /\ map_Forall (fun _ v => no_nl v = true) (privilegedAddresses st).

(** * Properties *)

(** ** Strings *)

Lemma app_assoc (a b c : string) : (a +:+ b) +:+ c = a +:+ (b +:+ c).
Proof.
  induction a as [|x a IH]; [reflexivity|].
  change (String x ((a +:+ b) +:+ c) = String x (a +:+ (b +:+ c))).
  now rewrite IH.
Qed.

Lemma app_nil_r (a : string) : a +:+ "" = a.
Proof.
  induction a as [|x a IH]; [reflexivity|].
  change (String x (a +:+ "") = String x a). now rewrite IH.
Qed.

Lemma app_cons (x : ascii) (a b : string) : String x a +:+ b = String x (a +:+ b).
Proof. reflexivity. Qed.

Lemma app_nil_l (a : string) : "" +:+ a = a.
Proof. reflexivity. Qed.

(** ** The register allocator *)

Lemma scan_free_highest (occ : vec bool NUMBER_REGISTERS) :
  scan_free NUMBER_REGISTERS occ = highest_free occ.
Proof.
  inv_vec occ; intros b0 b1 b2 b3 b4 b5 b6 b7.
  destruct b0, b1, b2, b3, b4, b5, b6, b7; reflexivity.
Qed.

Lemma scan_free_spec (n : nat) (occ : vec bool NUMBER_REGISTERS) (i : nat) :
  scan_free n occ = Some i ->
  (i < n)%nat /\ vec_to_list occ !! i = Some false
  /\ forall j, (i < j < n)%nat -> vec_to_list occ !! j <> Some false.
Proof.
  induction n as [|n IH]; simpl; [discriminate|].
  destruct (vec_to_list occ !! n) as [[|]|] eqn:E.
  - intros H. destruct (IH H) as (Hlt & Hi & Hj). split; [lia|]. split; [exact Hi|].
    intros j Hjn. destruct (decide (j = n)) as [->|]; [congruence|]. apply Hj; lia.
  - intros [= <-]. split; [lia|]. split; [exact E|]. intros j Hjn; lia.
  - intros H. destruct (IH H) as (Hlt & Hi & Hj). split; [lia|]. split; [exact Hi|].
    intros j Hjn. destruct (decide (j = n)) as [->|]; [congruence|]. apply Hj; lia.
Qed.

Lemma get_free_register_eq (st : transpiler) :
  get_free_register st =
  Ok (register_text (highest_free (occupiedRegister st)),
      match highest_free (occupiedRegister st) with
      | Some _ => st
      | None =>
          mkTranspiler (privilegedObjects st) (occupiedRegister st) (registers st)
            (privilegedAddresses st) (output_string st)
            (printed st ++ ["Error: no free registers" +:+ NL])
      end).
Proof.
  unfold get_free_register. rewrite scan_free_highest.
  destruct (highest_free (occupiedRegister st)); reflexivity.
Qed.

Lemma saved_lines_from (f : nat -> string) (c : nat -> bool) (l : list nat) (init : string) :
  fold_left (fun acc i => if c i then acc +:+ f i else acc) l init
  = init +:+ fold_left (fun acc i => if c i then acc +:+ f i else acc) l "".
Proof.
  revert init. induction l as [|i l IH]; intros init; simpl.
  - now rewrite app_nil_r.
  - destruct (c i).
    + rewrite IH. rewrite (IH ("" +:+ f i)). rewrite app_nil_l. now rewrite app_assoc.
    + apply IH.
Qed.

(** C10. For every occupancy state [get_free_register] returns the text of
    the highest-indexed register that is not marked occupied (the text
    "Error" when there is none) and leaves the occupancy table as it was, so
    that a second call returns the same register; [push_registers] takes its
    scratch register this way and does not mark it, and the following call
    in [pop_registers] receives the same register. *)
Theorem get_free_register_highest_unmarked (st : transpiler) :
  exists st',
    get_free_register st
      = Ok (register_text (highest_free (occupiedRegister st)), st')
    /\ occupiedRegister st' = occupiedRegister st
    /\ (exists st'',
          get_free_register st'
            = Ok (register_text (highest_free (occupiedRegister st)), st''))
    /\ forall (saved : vec bool NUMBER_REGISTERS) (label : string),
         exists pushed popped st1 st2,
           push_registers saved st
             = Ok ("li " +:+ register_text (highest_free (occupiedRegister st))
                         +:+ " 1" +:+ NL +:+ pushed, st1)
           /\ occupiedRegister st1 = occupiedRegister st
           /\ pop_registers saved label st1
             = Ok ("li " +:+ register_text (highest_free (occupiedRegister st))
                         +:+ " 1" +:+ NL +:+ popped, st2)
           /\ occupiedRegister st2 = occupiedRegister st.
Proof.
  pose proof (get_free_register_eq st) as H1.
  eexists. split; [exact H1|].
  assert (Hocc : forall s, occupiedRegister
     match highest_free (occupiedRegister s) with
     | Some _ => s
     | None => mkTranspiler (privilegedObjects s) (occupiedRegister s) (registers s)
            (privilegedAddresses s) (output_string s)
            (printed s ++ ["Error: no free registers" +:+ NL])
     end = occupiedRegister s).
  { intros s. destruct (highest_free (occupiedRegister s)); reflexivity. }
  split; [apply Hocc|].
  split.
  { eexists. rewrite get_free_register_eq. rewrite Hocc. reflexivity. }
  intros saved label.
  unfold push_registers, pop_registers, bind, ret.
  rewrite H1.
  set (st1 := match highest_free (occupiedRegister st) with Some _ => st | None => _ end) in *.
  rewrite (saved_lines_from _ (is_occupied saved) (seq 1 (NUMBER_REGISTERS - 1))).
  do 4 eexists. split.
  { rewrite !app_assoc. reflexivity. }
  split; [apply Hocc|].
  rewrite get_free_register_eq.
  assert (E : occupiedRegister st1 = occupiedRegister st) by apply Hocc.
  rewrite E.
  rewrite (saved_lines_from _ (is_occupied saved) (rev (seq 1 (NUMBER_REGISTERS - 1)))).
  split.
  { rewrite !app_assoc. reflexivity. }
  destruct (highest_free (occupiedRegister st)); exact E.
Qed.

(** ** Runs of the whole transpiler on concrete programs *)

(** C1 (defect in the code). With both sides privileged, [a = b] requests and
    reads [b] first and then requests and writes [a] with the budget 20, but
    the line that should load [b] is written without a blank between its two
    operands: "load 55" is not an instruction, so the register stored into
    [a] still holds the address of [b]. *)
Theorem copy_between_privileged_objects :
  transpile program_copy
  = Written (unlines ["li 7 9216"; "li 6 9216";
                      "li 5 2"; "li 4 30"; "request 5 4"; "load 55";
                      "li 3 1"; "li 4 20"; "request 3 4"; "store 3 5"]) []
  /\ Machine.parse "load 55" = None
  /\ Machine.parse "load 5 5" = Some (Machine.Load 5 5)
  /\ (order_irrelevant <$> stream program_copy) = Some true.
Proof. repeat split; vm_compute; reflexivity. Qed.

(** C4 (defect in the code). For a branch without else-part both label
    markers land on one line; only the first is found, so the written file
    keeps the symbolic immediate "li 3 END_LABEL" and the marker line
    "END_LABEL:". *)
Theorem branch_without_else_keeps_label :
  transpile program_if
  = Written (unlines ["li 7 9216"; "li 6 9216"; "li 5 1"; "li 4 10"; "jmpEqZ 5 4 ";
                      "exit"; "li 4 0"; "li 3 END_LABEL"; "jmpEqZ 4 3 "]
             +:+ "END_LABEL:") []
  /\ Machine.parse "li 3 END_LABEL" = None
  /\ Machine.parse "END_LABEL:" = None
  /\ line_label "END_LABEL:" = Some "END_LABEL"
  /\ (order_irrelevant <$> stream program_if) = Some true.
Proof. repeat split; vm_compute; reflexivity. Qed.

(** The system call is written without a line terminator, so the next
    instruction lands on its line. *)
Lemma syscall_line_runs_into_next :
  transpile program_open_return
  = Written (unlines ["li 7 9216"; "li 6 9216"; "li 0 0"; "li 5 4"; "add 0 5 0";
                      "li 1 0"; "li 4 5"; "add 1 4 1"; "li 3 0"; "syscall 0exit"]) []
  /\ Machine.parse "syscall 0exit" = None.
Proof. repeat split; vm_compute; reflexivity. Qed.

(** C5 (defect in the code). For [open(4,5)] the arguments reach registers 0
    and 1 and the number 0 is loaded into the free register 3, but the
    operand of the one [syscall] line is the text of the system call number,
    not that register: "syscall 0" names register 0, which holds the
    argument 4.  No request is written. *)
Theorem open_names_number_not_register :
  transpile program_open
  = Written (unlines ["li 7 9216"; "li 6 9216"; "li 0 0"; "li 5 4"; "add 0 5 0";
                      "li 1 0"; "li 4 5"; "add 1 4 1"; "li 3 0"]
             +:+ "syscall 0") []
  /\ ((fun rho : Machine.file => (rho 0%N, rho 1%N, rho 3%N))
        <$> Machine.run (unlines ["li 0 0"; "li 5 4"; "add 0 5 0"; "li 1 0"; "li 4 5";
                                  "add 1 4 1"; "li 3 0"]) (fun _ => 0%Z))
     = Some (4, 5, 0)%Z
  /\ (request_lines <$> stream program_open) = Some []
  /\ (order_irrelevant <$> stream program_open) = Some true.
Proof.
  repeat split; vm_compute; reflexivity.
Qed.

(** C6 (defect in the code). With one register left, the second request for a
    register in the write sequence finds none: [get_free_register] prints its
    message and returns the text "Error", which is written into the file as
    an operand; the run completes and writes the file. *)
Theorem exhausted_allocator_writes_error_operand :
  transpile program_pressure
  = Written (unlines ["li 7 9216"; "li 6 9216";
                      "li 4 1"; "li 5 0"; "add 5 4 5";
                      "li 3 2"; "li 4 0"; "add 4 3 4";
                      "li 2 3"; "li 3 0"; "add 3 2 3";
                      "li 1 4"; "li 2 0"; "add 2 1 2";
                      "li 1 6"; "li 0 200"; "li Error 20"; "request 0 Error";
                      "store 0 1"])
            ["Error: no free registers" +:+ NL]
  /\ Machine.parse "li Error 20" = None
  /\ Machine.parse "request 0 Error" = None
  /\ (order_irrelevant <$> stream program_pressure) = Some true.
Proof. repeat split; vm_compute; reflexivity. Qed.

(** C9 (defect in the code). The parameter loop assigns the [int] counter to
    the [std::string] entry of the symbol table, which stores the character
    with that code, not the decimal text: the first parameter is bound to the
    one-character string with code 0, and code that refers to it carries
    that character where the register number should be. *)
Theorem parameter_bound_to_character :
  transpile program_parameter
  = Written (unlines ["li 5 1"; "add " +:+ String (ascii_of_nat 0) "" +:+ " 5 4"]) []
  /\ String (ascii_of_nat 0) "" <> to_string 0
  /\ Machine.parse ("add " +:+ String (ascii_of_nat 0) "" +:+ " 5 4") = None
  /\ (order_irrelevant <$> stream program_parameter) = Some true.
Proof. repeat split; try (vm_compute; reflexivity). discriminate. Qed.

(** ** Lines that begin with r *)

Lemma no_nl_app (a b : string) : no_nl (a +:+ b) = no_nl a && no_nl b.
Proof.
  induction a as [|c a IH]; [reflexivity|].
  rewrite app_cons. simpl. rewrite IH. now rewrite andb_assoc.
Qed.

Lemma no_r_lines_weaken (b : bool) (s : string) :
  no_r_lines true s = true -> no_r_lines b s = true.
Proof.
  destruct s as [|c s]; [reflexivity|]. simpl.
  destruct b; [trivial|]. intros H. apply andb_true_iff in H as [_ H]. exact H.
Qed.

Lemma no_r_lines_app (b : bool) (s t : string) :
  no_r_lines b s = true -> clean t -> no_r_lines b (s +:+ t) = true.
Proof.
  revert b. induction s as [|c s IH]; intros b Hs Ht.
  - rewrite app_nil_l. now apply no_r_lines_weaken.
  - rewrite app_cons. simpl in *. apply andb_true_iff in Hs as [H1 H2].
    rewrite H1. simpl. now apply IH.
Qed.

Lemma clean_app (s t : string) : clean s -> clean t -> clean (s +:+ t).
Proof. apply no_r_lines_app. Qed.

Lemma clean_nil : clean "".
Proof. reflexivity. Qed.

Lemma no_r_lines_one_line (s : string) : no_nl s = true -> no_r_lines false s = true.
Proof.
  induction s as [|c s IH]; [reflexivity|]. simpl. intros H.
  apply andb_true_iff in H as [H1 H2].
  destruct (Ascii.eqb c "010"); [discriminate|]. now apply IH.
Qed.

Lemma clean_word (s : string) : head_ok s = true -> no_nl s = true -> clean s.
Proof.
  destruct s as [|c s]; [discriminate|]. unfold clean. simpl. intros H1 H2.
  apply andb_true_iff in H2 as [H2 H3]. rewrite H1. simpl.
  destruct (Ascii.eqb c "010"); [discriminate|]. now apply no_r_lines_one_line.
Qed.

Lemma clean_line (s : string) : head_ok s = true -> no_nl s = true -> clean (s +:+ NL).
Proof.
  intros H1 H2. apply clean_app; [now apply clean_word|reflexivity].
Qed.

Lemma prefix_cons (a b : ascii) (s1 s2 : string) :
  String.prefix (String a s1) (String b s2)
  = if ascii_dec a b then String.prefix s1 s2 else false.
Proof. reflexivity. Qed.

Lemma starts_with_r (c : ascii) (l : string) :
  negb (Ascii.eqb c "r") = true -> starts_with "r" (String c l) = false.
Proof.
  intros H. unfold starts_with. rewrite prefix_cons.
  destruct (ascii_dec "r" c) as [<-|]; [discriminate H|reflexivity].
Qed.

(** The lines of a clean text: none begins with r. *)
Lemma no_r_lines_getlines (b : bool) (s : string) :
  no_r_lines b s = true ->
  match getlines s with
  | [] => True
  | l :: ls =>
      (b = true -> starts_with "r" l = false)
      /\ Forall (fun l => starts_with "r" l = false) ls
  end.
Proof.
  revert b. induction s as [|c s IH]; intros b H; [exact I|].
  simpl in H. apply andb_true_iff in H as [H1 H2].
  simpl. destruct (Ascii.eqb c "010") eqn:E.
  - split; [reflexivity|]. specialize (IH true H2).
    destruct (getlines s) as [|l ls]; [constructor|].
    destruct IH as [Ha Hb]. constructor; [now apply Ha|exact Hb].
  - specialize (IH false H2). destruct (getlines s) as [|l ls].
    + split; [|constructor]. intros ->. now apply starts_with_r.
    + destruct IH as [_ Hb]. split; [|exact Hb]. intros ->.
      now apply starts_with_r.
Qed.

Lemma starts_with_request (l : string) :
  starts_with "r" l = false -> starts_with "request" l = false.
Proof.
  unfold starts_with. destruct l as [|c l]; [reflexivity|].
  change "request" with (String "r" "equest"). change "r" with (String "r" "").
  rewrite !prefix_cons.
  destruct (ascii_dec "r" c); [|reflexivity]. destruct l; discriminate.
Qed.

Lemma clean_request_lines (s : string) : clean s -> request_lines s = [].
Proof.
  intros H. apply (no_r_lines_getlines true) in H. unfold request_lines.
  destruct (getlines s) as [|l ls]; [reflexivity|]. destruct H as [Ha Hb].
  simpl. rewrite (starts_with_request l (Ha eq_refl)).
  induction Hb as [|x xs Hx _ IH]; [reflexivity|].
  simpl. now rewrite (starts_with_request x Hx).
Qed.

(** ** Rules for generators *)

Lemma bind_Ok {A B} (c : M A) (k : A -> M B) (st : transpiler) (b : B) (st' : transpiler) :
  bind c k st = Ok (b, st') ->
  exists a st1, c st = Ok (a, st1) /\ k a st1 = Ok (b, st').
Proof.
  unfold bind. destruct (c st) as [[a st1]| |]; [|discriminate|discriminate].
  intros H. now exists a, st1.
Qed.

Lemma keeps_ret {A} (I : transpiler -> Prop) (a : A) (phi : A -> Prop) :
  phi a -> keeps I (ret a) phi.
Proof. intros H st a' st' HI [= <- <-]. now split. Qed.

Lemma keeps_bind {A B} (I : transpiler -> Prop) (c : M A) (k : A -> M B)
    (phi : A -> Prop) (psi : B -> Prop) :
  keeps I c phi -> (forall a, phi a -> keeps I (k a) psi) -> keeps I (bind c k) psi.
Proof.
  intros Hc Hk st b st' HI H. apply bind_Ok in H as (a & st1 & H1 & H2).
  destruct (Hc _ _ _ HI H1) as [HI1 Ha]. exact (Hk a Ha _ _ _ HI1 H2).
Qed.

Lemma keeps_weaken {A} (I : transpiler -> Prop) (c : M A) (phi psi : A -> Prop) :
  keeps I c phi -> (forall a, phi a -> psi a) -> keeps I c psi.
Proof. intros Hc Hw st a st' HI H. destruct (Hc _ _ _ HI H). split; auto. Qed.

Lemma keeps_undefined {A} (I : transpiler -> Prop) (phi : A -> Prop) :
  keeps I undefined phi.
Proof. intros st a st' _ H. discriminate H. Qed.

(** ** Register texts *)

Lemma string_of_uint_no_nl (d : Decimal.uint) : no_nl (NilEmpty.string_of_uint d) = true.
Proof. induction d; simpl; auto. Qed.

Lemma to_string_no_nl (n : N) : no_nl (to_string n) = true.
Proof.
  unfold to_string, NilZero.string_of_uint.
  destruct (N.to_uint n) eqn:E; try reflexivity;
    rewrite <- E; apply string_of_uint_no_nl.
Qed.

Lemma to_string_not_privileged (n : N) : starts_with PRIV_PREFIX (to_string n) = false.
Proof.
  unfold to_string, NilZero.string_of_uint.
  destruct (N.to_uint n); reflexivity.
Qed.

Lemma to_string_reg_ok (n : N) : reg_ok (to_string n).
Proof. split; [apply to_string_no_nl|apply to_string_not_privileged]. Qed.

Lemma register_text_reg_ok (r : option nat) : reg_ok (register_text r).
Proof. destruct r; [apply to_string_reg_ok|split; reflexivity]. Qed.

(** ** The primitives keep the invariant of unprivileged generation *)

Section Unprivileged.

Variable po : gmap string bool.
Variable base : string.

Abbreviation I := (unprivileged_inv po base).

Lemma keeps_emit (s : string) : clean s -> keeps I (emit s) (fun _ => True).
Proof.
  intros Hs st [] st' (Hpo & Hregs & t & Ht & Hc) [= <-].
  split; [|exact Logic.I]. split; [exact Hpo|]. split; [exact Hregs|].
  exists (t +:+ s). simpl. rewrite Ht, app_assoc. split; [reflexivity|].
  now apply clean_app.
Qed.

Lemma keeps_get_free_register : keeps I get_free_register reg_ok.
Proof.
  intros st r st' HI H. rewrite get_free_register_eq in H. injection H as <- <-.
  split; [|apply register_text_reg_ok].
  destruct (highest_free (occupiedRegister st)); exact HI.
Qed.

Lemma keeps_mark (i : Z) (b : bool) : keeps I (mark i b) (fun _ => True).
Proof.
  intros st [] st' HI H. unfold mark in H.
  destruct (i <? 0)%Z; [discriminate|].
  destruct (fin_of_nat NUMBER_REGISTERS (Z.to_nat i)); [|discriminate].
  injection H as <-. split; [exact HI|exact Logic.I].
Qed.

Lemma keeps_mark_register (r : string) (b : bool) :
  keeps I (mark_register r b) (fun _ => True).
Proof.
  intros st u st' HI H. unfold mark_register in H.
  destruct (stoi r); [|discriminate|discriminate].
  exact (keeps_mark _ _ _ _ _ HI H).
Qed.

Lemma keeps_set_registers (m : gmap string string) :
  map_Forall (fun _ v => reg_ok v) m -> keeps I (set_registers m) (fun _ => True).
Proof.
  intros Hm st [] st' (Hpo & Hregs & Hout) [= <-].
  split; [|exact Logic.I]. split; [exact Hpo|]. split; [exact Hm|exact Hout].
Qed.

Lemma keeps_get_registers :
  keeps I get_registers (fun m => map_Forall (fun _ v => reg_ok v) m).
Proof.
  intros st m st' HI [= <- <-]. split; [exact HI|]. exact (proj1 (proj2 HI)).
Qed.

Lemma keeps_bind_register (key r : string) :
  reg_ok r -> keeps I (bind_register key r) (fun _ => True).
Proof.
  intros Hr. unfold bind_register.
  eapply keeps_bind; [apply keeps_get_registers|].
  intros m Hm. apply keeps_set_registers. now apply map_Forall_insert_2.
Qed.

Lemma keeps_identifier_value (e : ExprNode) :
  keeps I (identifier_value e) (fun _ => True).
Proof.
  destruct e; try apply keeps_undefined. now apply keeps_ret.
Qed.

Lemma keeps_occupied (i : nat) : keeps I (occupied i) (fun _ => True).
Proof.
  intros st b st' HI H. unfold occupied in H.
  destruct (vec_to_list (occupiedRegister st) !! i); [|discriminate].
  injection H as <- <-. now split.
Qed.

Lemma keeps_get_occupiedRegister : keeps I get_occupiedRegister (fun _ => True).
Proof. intros st v st' HI [= <- <-]. now split. Qed.

(** One emitted line is clean when its operands are register texts. *)
Ltac operands :=
  cbv beta in *;
  repeat match goal with
         | H : reg_ok ?r |- context [no_nl ?r] => rewrite (proj1 H)
         | |- context [no_nl (to_string ?n)] => rewrite (to_string_no_nl n)
         | H : no_nl ?r = true |- context [no_nl ?r] => rewrite H
         end.

Ltac one_line :=
  rewrite <- ?app_assoc;
  first [apply clean_line | apply clean_word];
  [reflexivity | rewrite ?no_nl_app; operands; reflexivity].

Ltac primitive :=
  first [ apply keeps_get_free_register
        | apply keeps_emit; one_line
        | apply keeps_mark_register
        | apply keeps_mark
        | apply keeps_bind_register; assumption
        | apply keeps_identifier_value
        | apply keeps_occupied
        | apply keeps_get_occupiedRegister
        | apply keeps_get_registers ].

Ltac generated :=
  repeat first
    [ apply keeps_ret; try exact Logic.I
    | apply keeps_undefined
    | eapply keeps_bind; [ primitive | intros ? ? ]
    | primitive ].

Lemma saved_lines_clean (f : nat -> string) (c : nat -> bool) (l : list nat) :
  (forall i, clean (f i)) ->
  clean (fold_left (fun acc i => if c i then acc +:+ f i else acc) l "").
Proof.
  intros Hf. induction l as [|i l IH] using rev_ind; [reflexivity|].
  rewrite fold_left_app. simpl. destruct (c i); [|exact IH].
  now apply clean_app.
Qed.

Lemma clean_line3 (a b c rest : string) :
  clean (a +:+ b +:+ c +:+ NL) -> clean rest -> clean (a +:+ b +:+ c +:+ NL +:+ rest).
Proof.
  intros H1 H2.
  replace (a +:+ b +:+ c +:+ NL +:+ rest) with ((a +:+ b +:+ c +:+ NL) +:+ rest)
    by (now rewrite !app_assoc).
  now apply clean_app.
Qed.

Lemma clean_line4 (a b c d rest : string) :
  clean (a +:+ b +:+ c +:+ d +:+ NL) -> clean rest ->
  clean (a +:+ b +:+ c +:+ d +:+ NL +:+ rest).
Proof.
  intros H1 H2.
  replace (a +:+ b +:+ c +:+ d +:+ NL +:+ rest)
    with ((a +:+ b +:+ c +:+ d +:+ NL) +:+ rest) by (now rewrite !app_assoc).
  now apply clean_app.
Qed.

Lemma clean_line6 (a b c d e f rest : string) :
  clean (a +:+ b +:+ c +:+ d +:+ e +:+ f +:+ NL) -> clean rest ->
  clean (a +:+ b +:+ c +:+ d +:+ e +:+ f +:+ NL +:+ rest).
Proof.
  intros H1 H2.
  replace (a +:+ b +:+ c +:+ d +:+ e +:+ f +:+ NL +:+ rest)
    with ((a +:+ b +:+ c +:+ d +:+ e +:+ f +:+ NL) +:+ rest)
    by (now rewrite !app_assoc).
  now apply clean_app.
Qed.

Ltac lines :=
  repeat first [ apply clean_line3; [one_line|]
               | apply clean_line4; [one_line|]
               | apply clean_line6; [one_line|] ];
  first [apply clean_nil | one_line].

Lemma keeps_push_registers (occ : vec bool NUMBER_REGISTERS) :
  keeps I (push_registers occ) clean.
Proof.
  unfold push_registers.
  eapply keeps_bind; [apply keeps_get_free_register|]. intros r Hr.
  apply keeps_ret.
  rewrite (saved_lines_from _ (is_occupied occ) (seq 1 (NUMBER_REGISTERS - 1))).
  rewrite !app_assoc.
  apply clean_line3; [one_line|].
  apply clean_app; [|lines].
  apply saved_lines_clean. intros i. lines.
Qed.

Lemma keeps_pop_registers (occ : vec bool NUMBER_REGISTERS) (label : string) :
  keeps I (pop_registers occ label) clean.
Proof.
  unfold pop_registers.
  eapply keeps_bind; [apply keeps_get_free_register|]. intros r Hr.
  apply keeps_ret.
  rewrite (saved_lines_from _ (is_occupied occ) (rev (seq 1 (NUMBER_REGISTERS - 1)))).
  rewrite !app_assoc.
  apply clean_line3; [one_line|].
  apply clean_app; [|lines].
  apply saved_lines_clean. intros i. lines.
Qed.

Lemma keeps_transpile_number (value : N) : keeps I (transpile_number value) reg_ok.
Proof. unfold transpile_number. generated. assumption. Qed.

Lemma keeps_transpile_operator (op : BinOpType) (left_reg right_reg : string) :
  op <> ASS -> reg_ok left_reg -> reg_ok right_reg ->
  keeps I (transpile_operator op left_reg right_reg) reg_ok.
Proof.
  intros Hop Hl Hr. destruct op; try congruence; unfold transpile_operator;
    generated; assumption.
Qed.

Lemma keeps_load_operand (node : ExprNode) (descriptor : string) :
  reg_ok descriptor -> keeps I (load_operand node descriptor) reg_ok.
Proof.
  intros H. unfold load_operand. rewrite (proj2 H). now apply keeps_ret.
Qed.

Lemma keeps_transpile_assignment (lhs : ExprNode) (lhs_register rhs_register : string) :
  reg_ok lhs_register -> reg_ok rhs_register ->
  keeps I (transpile_assignment lhs lhs_register rhs_register) reg_ok.
Proof.
  intros Hl Hr. unfold transpile_assignment. rewrite (proj2 Hl), (proj2 Hr).
  generated. assumption.
Qed.

Lemma keeps_transpile_syscall_number (syscall : SysCall_Type) :
  keeps I (transpile_syscall_number syscall) (fun n => no_nl n = true).
Proof.
  unfold transpile_syscall_number.
  eapply keeps_bind; [apply keeps_get_free_register|]. intros r Hr.
  destruct syscall; generated; reflexivity.
Qed.

Lemma keeps_transpile_identifier (value : string) :
  default false (po !! value) = false ->
  keeps I (transpile_identifier value) reg_ok.
Proof.
  intros Hv st r st' HI H. unfold transpile_identifier in H.
  assert (Hregs : registers_plain st) by exact (proj1 (proj2 HI)).
  rewrite (proj1 HI), Hv in H.
  assert (Hnew : keeps I
            (let* value_register := get_free_register in
             mark_register value_register true ;;
             bind_register value value_register ;;
             ret value_register) reg_ok).
  { generated. assumption. }
  destruct (registers st !! value) as [v|] eqn:E; simpl in H.
  - destruct v as [|c v].
    + exact (Hnew _ _ _ HI H).
    + injection H as <- <-. split; [exact HI|].
      exact (map_Forall_lookup_1 _ _ _ _ Hregs E).
  - exact (Hnew _ _ _ HI H).
Qed.

Lemma keeps_syscall_arguments (f : ExprNode -> M string) (args : list ExprNode) :
  Forall (fun e => keeps I (f e) reg_ok) args ->
  forall i, keeps I (syscall_arguments f i args) (fun _ => True).
Proof.
  induction 1 as [|arg rest Harg _ IH]; intros i; simpl.
  - now apply keeps_ret.
  - eapply keeps_bind; [apply keeps_occupied|]. intros taken _.
    eapply keeps_bind with (phi := fun _ => True).
    { destruct taken; [|apply keeps_mark].
      eapply keeps_bind; [apply keeps_identifier_value|]. intros name _.
      eapply keeps_bind; [apply keeps_get_registers|]. intros regs Hregs.
      destruct (regs !! name); [|apply keeps_undefined].
      eapply keeps_bind.
      { apply keeps_set_registers. apply map_Forall_insert_2; [|exact Hregs].
        apply to_string_reg_ok. }
      intros _ _. generated. }
    intros _ _.
    eapply keeps_bind; [apply keeps_emit; one_line|]. intros _ _.
    eapply keeps_bind; [exact Harg|]. intros value_register Hv.
    eapply keeps_bind; [apply keeps_emit; one_line|]. intros _ _.
    apply IH.
Qed.

Lemma keeps_call_arguments (f : ExprNode -> M string) (args : list ExprNode) :
  Forall (fun e => keeps I (f e) reg_ok) args ->
  forall i, keeps I (call_arguments f i args) (fun _ => True).
Proof.
  induction 1 as [|arg rest Harg _ IH]; intros i; simpl.
  - now apply keeps_ret.
  - eapply keeps_bind; [exact Harg|]. intros result_register Hr.
    generated. apply IH.
Qed.

Lemma keeps_transpile_func_call_body (f : ExprNode -> M string) (funcName : string)
    (args : list ExprNode) :
  no_nl funcName = true ->
  Forall (fun e => keeps I (f e) reg_ok) args ->
  keeps I (transpile_func_call_body f funcName args) reg_ok.
Proof.
  intros Hname Hargs. unfold transpile_func_call_body.
  eapply keeps_bind; [apply keeps_get_occupiedRegister|]. intros occ _.
  eapply keeps_bind; [apply keeps_push_registers|]. intros pushed Hpushed.
  eapply keeps_bind; [apply keeps_emit; exact Hpushed|]. intros _ _.
  eapply keeps_bind; [apply keeps_get_occupiedRegister|]. intros occ' _.
  eapply keeps_bind; [apply keeps_pop_registers|]. intros popped Hpopped.
  eapply keeps_bind; [now apply keeps_call_arguments|]. intros _ _.
  eapply keeps_bind; [apply keeps_emit; one_line|]. intros _ _.
  eapply keeps_bind; [apply keeps_emit; one_line|]. intros _ _.
  eapply keeps_bind; [apply keeps_emit; one_line|]. intros _ _.
  eapply keeps_bind; [apply keeps_emit; exact Hpopped|]. intros _ _.
  apply keeps_ret. split; reflexivity.
Qed.

Lemma keeps_transpile_sys_call_body (f : ExprNode -> M string) (syscall : SysCall_Type)
    (args : list ExprNode) :
  Forall (fun e => keeps I (f e) reg_ok) args ->
  keeps I (transpile_sys_call_body f syscall args) reg_ok.
Proof.
  intros Hargs. unfold transpile_sys_call_body.
  eapply keeps_bind; [now apply keeps_syscall_arguments|]. intros _ _.
  eapply keeps_bind; [apply keeps_transpile_syscall_number|]. intros n Hn.
  eapply keeps_bind; [apply keeps_emit; one_line|]. intros _ _.
  apply keeps_ret. split; reflexivity.
Qed.

End Unprivileged.

(** ** Expressions without privileged identifiers *)

Lemma ExprNode_ind_nested (P : ExprNode -> Prop) :
  (forall e, P e -> P (EXPR e)) ->
  (forall value, P (IDENTIFIER value)) ->
  (forall value, P (NUMBER value)) ->
  (forall lhs rhs op, P lhs -> P rhs -> P (BIN_OP lhs rhs op)) ->
  (forall identifier args, Forall P args -> P (FUNC_CALL identifier args)) ->
  (forall syscall args, Forall P args -> P (SYS_CALL syscall args)) ->
  forall e, P e.
Proof.
  intros He Hi Hn Hb Hf Hs.
  fix IH 1. intros [e|v|n|l r op|f args|sc args].
  - apply He, IH.
  - apply Hi.
  - apply Hn.
  - apply Hb; apply IH.
  - apply Hf. induction args as [|a args IHa]; constructor; [apply IH|exact IHa].
  - apply Hs. induction args as [|a args IHa]; constructor; [apply IH|exact IHa].
Qed.

Lemma Forall_keeps (po : gmap string bool) (base : string) (args : list ExprNode) :
  Forall (fun e => unprivileged po e = true -> callees_on_one_line e = true ->
                   keeps (unprivileged_inv po base) (transpile_expr e) reg_ok) args ->
  forallb (unprivileged po) args = true ->
  forallb callees_on_one_line args = true ->
  Forall (fun e => keeps (unprivileged_inv po base) (transpile_expr e) reg_ok) args.
Proof.
  induction 1 as [|a args Ha _ IH]; intros H1 H2; constructor.
  - simpl in H1, H2. apply andb_true_iff in H1 as [H1 _], H2 as [H2 _]. now apply Ha.
  - simpl in H1, H2. apply andb_true_iff in H1 as [_ H1], H2 as [_ H2]. now apply IH.
Qed.

Lemma keeps_transpile_expr (po : gmap string bool) (base : string) (e : ExprNode) :
  unprivileged po e = true -> callees_on_one_line e = true ->
  keeps (unprivileged_inv po base) (transpile_expr e) reg_ok.
Proof.
  induction e as [e IH|v|n|l r op IHl IHr|f args IH|sc args IH]
    using ExprNode_ind_nested; simpl; intros Hu Hc.
  - now apply IH.
  - apply keeps_transpile_identifier. now destruct (default false (po !! v)).
  - apply keeps_transpile_number.
  - apply andb_true_iff in Hu as [Hul Hur], Hc as [Hcl Hcr].
    eapply keeps_bind; [now apply IHl|]. intros lhs_register Hl.
    eapply keeps_bind; [now apply IHr|]. intros rhs_register Hr.
    destruct op;
      try (eapply keeps_bind; [now apply keeps_load_operand|]; intros left_reg Hleft;
           eapply keeps_bind; [now apply keeps_load_operand|]; intros right_reg Hright;
           now apply keeps_transpile_operator).
    now apply keeps_transpile_assignment.
  - apply andb_true_iff in Hc as [Hname Hc].
    apply keeps_transpile_func_call_body; [exact Hname|].
    now apply Forall_keeps.
  - apply keeps_transpile_sys_call_body. now apply Forall_keeps.
Qed.

(** C8. An expression in whose subtree no privileged identifier occurs emits
    no request: what its generation appends to the instruction text has no
    line that begins with the word request.  The register texts of the symbol
    table are plain (allocator results or parameter characters, as the
    function prologue and the generators leave them) and the names of called
    functions are identifiers, so they stay on one line. *)
Theorem unprivileged_expression_requests_nothing
    (e : ExprNode) (st : transpiler) (r : string) (st' : transpiler) :
  unprivileged (privilegedObjects st) e = true ->
  callees_on_one_line e = true ->
  registers_plain st ->
  transpile_expr e st = Ok (r, st') ->
  exists emitted,
    output_string st' = output_string st +:+ emitted /\ request_lines emitted = [].
Proof.
  intros Hu Hc Hregs H.
  destruct (keeps_transpile_expr (privilegedObjects st) (output_string st) e Hu Hc
              st r st') as [(_ & _ & t & Ht & Hclean) _].
  - split; [reflexivity|]. split; [exact Hregs|]. exists "".
    now rewrite app_nil_r.
  - exact H.
  - exists t. split; [exact Ht|]. now apply clean_request_lines.
Qed.

Lemma unprivileged_expression_requests_nothing_witness :
  exists emitted,
    output_string
      (mkTranspiler ∅ [# false; false; false; true; true; true; true; true]
         (<["d" := "5"]> ∅) ∅
         ("main:" +:+ unlines ["li 7 9216"; "li 6 9216"; "li 4 2"; "add 5 4 3"]) [])
    = output_string state_with_d +:+ emitted
    /\ request_lines emitted = [].
Proof.
  apply (unprivileged_expression_requests_nothing
           (BIN_OP (IDENTIFIER "d") (NUMBER 2) ADD) state_with_d "3").
  - reflexivity.
  - reflexivity.
  - apply map_Forall_insert_2; [split; reflexivity|apply map_Forall_empty].
  - vm_compute. reflexivity.
Defined.

(** ** Relational operators *)

Ltac small i :=
  destruct i as [|i]; [|destruct i as [|i]; [|destruct i as [|i];
  [|destruct i as [|i]; [|destruct i as [|i]; [|destruct i as [|i];
  [|destruct i as [|i]; [|destruct i as [|i]; [|exfalso; lia]]]]]]]].

Lemma stoi_to_string (i : nat) :
  (i < NUMBER_REGISTERS)%nat -> stoi (to_string (N.of_nat i)) = Ok (Z.of_nat i).
Proof. unfold NUMBER_REGISTERS. intros H. small i; reflexivity. Qed.

Lemma mark_small (i : nat) (b : bool) (st : transpiler) :
  (i < NUMBER_REGISTERS)%nat ->
  mark (Z.of_nat i) b st
  = Ok (tt, mkTranspiler (privilegedObjects st) (update i b (occupiedRegister st))
              (registers st) (privilegedAddresses st) (output_string st) (printed st)).
Proof. unfold NUMBER_REGISTERS. intros H. small i; reflexivity. Qed.

Lemma mark_register_small (i : nat) (b : bool) (st : transpiler) :
  (i < NUMBER_REGISTERS)%nat ->
  mark_register (to_string (N.of_nat i)) b st
  = Ok (tt, mkTranspiler (privilegedObjects st) (update i b (occupiedRegister st))
              (registers st) (privilegedAddresses st) (output_string st) (printed st)).
Proof.
  intros H. unfold mark_register. rewrite (stoi_to_string i H). now apply mark_small.
Qed.

Lemma highest_free_small (occ : vec bool NUMBER_REGISTERS) (i : nat) :
  highest_free occ = Some i -> (i < NUMBER_REGISTERS)%nat.
Proof.
  rewrite <- scan_free_highest. intros H. now apply scan_free_spec in H.
Qed.

Lemma highest_free_update (occ : vec bool NUMBER_REGISTERS) (i j : nat) :
  highest_free occ = Some i -> highest_free (update i true occ) = Some j -> j <> i.
Proof.
  intros Hi Hj <-. pose proof (highest_free_small _ _ Hi) as Hlt.
  rewrite <- scan_free_highest in Hj. apply scan_free_spec in Hj as (_ & Hj & _).
  revert Hj. clear Hi. unfold NUMBER_REGISTERS in *.
  inv_vec occ; intros b0 b1 b2 b3 b4 b5 b6 b7.
  small j; discriminate.
Qed.

Lemma get_free_register_some (st : transpiler) (i : nat) :
  highest_free (occupiedRegister st) = Some i ->
  get_free_register st = Ok (to_string (N.of_nat i), st).
Proof. intros H. rewrite get_free_register_eq, H. reflexivity. Qed.

Lemma getlines_line (l rest : string) :
  no_nl l = true -> getlines (l +:+ NL +:+ rest) = l :: getlines rest.
Proof.
  induction l as [|c l IH]; intros H; [reflexivity|].
  simpl in H. apply andb_true_iff in H as [H1 H2].
  rewrite app_cons. simpl. destruct (Ascii.eqb c "010"); [discriminate|].
  now rewrite (IH H2).
Qed.

Lemma getlines_unlines (ls : list string) :
  Forall (fun l => no_nl l = true) ls -> getlines (unlines ls) = ls.
Proof.
  induction 1 as [|l ls Hl _ IH]; [reflexivity|].
  simpl. rewrite (getlines_line l _ Hl). now rewrite IH.
Qed.

Lemma parse_cmpGT (a b c : nat) :
  (a < 8)%nat -> (b < 8)%nat -> (c < 8)%nat ->
  Machine.parse ("cmpGT " +:+ to_string (N.of_nat a) +:+ " " +:+ to_string (N.of_nat b)
                          +:+ " " +:+ to_string (N.of_nat c))
  = Some (Machine.CmpGT (N.of_nat a) (N.of_nat b) (N.of_nat c)).
Proof. intros Ha Hb Hc. small a; small b; small c; reflexivity. Qed.

Lemma parse_sub (a b c : nat) :
  (a < 8)%nat -> (b < 8)%nat -> (c < 8)%nat ->
  Machine.parse ("sub " +:+ to_string (N.of_nat a) +:+ " " +:+ to_string (N.of_nat b)
                        +:+ " " +:+ to_string (N.of_nat c))
  = Some (Machine.Sub (N.of_nat a) (N.of_nat b) (N.of_nat c)).
Proof. intros Ha Hb Hc. small a; small b; small c; reflexivity. Qed.

Lemma parse_li_one (a : nat) :
  (a < 8)%nat ->
  Machine.parse ("li " +:+ to_string (N.of_nat a) +:+ " 1")
  = Some (Machine.Li (N.of_nat a) 1).
Proof. intros Ha. small a; reflexivity. Qed.

Lemma bind_eq {A B} (c : M A) (k : A -> M B) (st st1 : transpiler) (a : A) :
  c st = Ok (a, st1) -> bind c k st = k a st1.
Proof. unfold bind. now intros ->. Qed.

Lemma emit_eq (s : string) (st : transpiler) :
  emit s st
  = Ok (tt, mkTranspiler (privilegedObjects st) (occupiedRegister st) (registers st)
              (privilegedAddresses st) (output_string st +:+ s) (printed st)).
Proof. reflexivity. Qed.

Lemma transpile_operator_lines (op : BinOpType) (l r : string) (st : transpiler)
    (f one : nat) :
  relational op = true ->
  highest_free (occupiedRegister st) = Some f ->
  (needs_one op = true ->
   highest_free (update f true (occupiedRegister st)) = Some one) ->
  exists st',
    transpile_operator op l r st = Ok (to_string (N.of_nat f), st')
    /\ output_string st'
       = output_string st
         +:+ unlines (relational_lines op l r (to_string (N.of_nat f))
                        (to_string (N.of_nat one))).
Proof.
  intros Hop Hf Hone. pose proof (highest_free_small _ _ Hf) as Hlt.
  destruct op; try discriminate Hop; unfold transpile_operator;
    try specialize (Hone eq_refl);
    repeat first
      [ erewrite bind_eq; [|apply get_free_register_some; simpl; eassumption]
      | erewrite bind_eq; [|apply emit_eq]
      | erewrite bind_eq; [|apply mark_register_small; exact Hlt] ];
    unfold ret; eexists; (split; [reflexivity|]);
    simpl; rewrite ?app_assoc, ?app_nil_r; reflexivity.
Qed.

Lemma write_same (r : N) (v : Z) (rho : Machine.file) : Machine.write r v rho r = v.
Proof. unfold Machine.write. now rewrite N.eqb_refl. Qed.

Lemma write_other (r r' : nat) (v : Z) (rho : Machine.file) :
  r' <> r -> Machine.write (N.of_nat r) v rho (N.of_nat r') = rho (N.of_nat r').
Proof.
  intros H. unfold Machine.write.
  destruct (N.eqb_spec (N.of_nat r') (N.of_nat r)) as [E|]; [|reflexivity].
  apply Nat2N.inj in E. contradiction.
Qed.

Lemma cmpGT_cases (x y : Z) : Machine.cmpGT x y = 0%Z \/ Machine.cmpGT x y = 1%Z.
Proof. unfold Machine.cmpGT. destruct (y <? x)%Z; auto. Qed.

Lemma relational_lines_run (op : BinOpType) (l r f one : nat) (rho : Machine.file) :
  relational op = true ->
  (l < 8)%nat -> (r < 8)%nat -> (f < 8)%nat ->
  (needs_one op = true -> (one < 8)%nat /\ one <> f) ->
  exists rho',
    Machine.run (unlines (relational_lines op (to_string (N.of_nat l))
                            (to_string (N.of_nat r)) (to_string (N.of_nat f))
                            (to_string (N.of_nat one)))) rho = Some rho'
    /\ relational_result op (rho (N.of_nat l)) (rho (N.of_nat r)) (rho' (N.of_nat f)).
Proof.
  intros Hop Hl Hr Hf Hone. unfold Machine.run.
  rewrite getlines_unlines.
  2:{ destruct op; try discriminate Hop; simpl;
      repeat (constructor; [rewrite ?no_nl_app, ?to_string_no_nl; reflexivity|]);
      constructor. }
  destruct op; try discriminate Hop; simpl relational_lines;
    try (destruct (Hone eq_refl) as [Ho Hne]); cbn [Machine.run_lines];
    rewrite ?parse_cmpGT, ?parse_sub, ?parse_li_one by assumption;
    cbn [Machine.step]; eexists; (split; [reflexivity|]); cbn [relational_result];
    rewrite ?write_same.
  - reflexivity.
  - reflexivity.
  - rewrite (write_other one f) by congruence. rewrite write_same.
    change (Machine.word64 (Z.of_N 1)) with 1%Z.
    destruct (cmpGT_cases (rho (N.of_nat l)) (rho (N.of_nat r))) as [E|E]; rewrite E;
      split; intros H; try reflexivity; discriminate H.
  - rewrite (write_other one f) by congruence. rewrite write_same.
    change (Machine.word64 (Z.of_N 1)) with 1%Z.
    destruct (cmpGT_cases (rho (N.of_nat r)) (rho (N.of_nat l))) as [E|E]; rewrite E;
      split; intros H; try reflexivity; discriminate H.
  - rewrite (write_other one f) by congruence. rewrite write_same. reflexivity.
  - reflexivity.
Qed.

Lemma transpile_expr_bin_op (lhs rhs : ExprNode) (op : BinOpType) :
  transpile_expr (BIN_OP lhs rhs op)
  = (let* lhs_register := transpile_expr lhs in
     let* rhs_register := transpile_expr rhs in
     match op with
     | ASS => transpile_assignment lhs lhs_register rhs_register
     | _ =>
         let* left_reg := load_operand lhs lhs_register in
         let* right_reg := load_operand rhs rhs_register in
         transpile_operator op left_reg right_reg
     end).
Proof. destruct op; reflexivity. Qed.

Lemma load_operand_register (node : ExprNode) (i : nat) (st : transpiler) :
  load_operand node (to_string (N.of_nat i)) st = Ok (to_string (N.of_nat i), st).
Proof. unfold load_operand. now rewrite to_string_not_privileged. Qed.

(** C2 (amended). With the operand values in registers [l] and [r], a free
    register [f] for the result and, for [<=], [>=] and [==], a second free
    register for the constant 1, the code emitted for a relational operator
    leaves in [f]: cmpGT(b,a) for [a<b]; cmpGT(a,b) for [a>b]; for [a<=b] a
    value that is zero exactly when cmpGT(a,b) is 1, for [a>=b] a value that
    is zero exactly when cmpGT(b,a) is 1; cmpGT(1, a-b) for [a==b]; and a-b
    for [a!=b], the subtraction taken modulo 2^64. *)
Theorem relational_operators_compute
    (lhs rhs : ExprNode) (op : BinOpType) (st st1 st2 : transpiler) (l r f one : nat) :
  relational op = true ->
  (l < 8)%nat -> (r < 8)%nat ->
  transpile_expr lhs st = Ok (to_string (N.of_nat l), st1) ->
  transpile_expr rhs st1 = Ok (to_string (N.of_nat r), st2) ->
  highest_free (occupiedRegister st2) = Some f ->
  (needs_one op = true ->
   highest_free (update f true (occupiedRegister st2)) = Some one) ->
  exists code st3,
    transpile_expr (BIN_OP lhs rhs op) st = Ok (to_string (N.of_nat f), st3)
    /\ output_string st3 = output_string st2 +:+ code
    /\ forall rho : Machine.file,
         exists rho',
           Machine.run code rho = Some rho'
           /\ relational_result op (rho (N.of_nat l)) (rho (N.of_nat r))
                (rho' (N.of_nat f)).
Proof.
  intros Hop Hl Hr H1 H2 Hf Hone.
  destruct (transpile_operator_lines op (to_string (N.of_nat l)) (to_string (N.of_nat r))
              st2 f one Hop Hf Hone) as (st3 & H3 & Hout).
  exists (unlines (relational_lines op (to_string (N.of_nat l)) (to_string (N.of_nat r))
                     (to_string (N.of_nat f)) (to_string (N.of_nat one)))), st3.
  split.
  { rewrite transpile_expr_bin_op.
    rewrite (bind_eq _ _ _ _ _ H1), (bind_eq _ _ _ _ _ H2).
    destruct op; try discriminate Hop;
      rewrite (bind_eq _ _ _ _ _ (load_operand_register lhs l st2)),
              (bind_eq _ _ _ _ _ (load_operand_register rhs r st2));
      exact H3. }
  split; [exact Hout|].
  intros rho. apply relational_lines_run; try assumption.
  - exact (highest_free_small _ _ Hf).
  - intros Hn. split.
    + exact (highest_free_small _ _ (Hone Hn)).
    + exact (highest_free_update _ _ _ Hf (Hone Hn)).
Qed.

(** Scenario B through the theorem: with [a] in register 5 holding 5, the
    code for [a == 5] leaves 1 and the code for [a != 5] leaves 0. *)
Lemma relational_operators_compute_witness :
  (exists code st3 rho',
     transpile_expr (BIN_OP (IDENTIFIER "a") (NUMBER 5) EQ) state_with_a = Ok ("3", st3)
     /\ output_string st3 = unlines ["li 4 5"] +:+ code
     /\ Machine.run (unlines ["li 4 5"] +:+ code) (fun r => if (r =? 5)%N then 5%Z else 0%Z)
        = Some rho'
     /\ rho' 3%N = 1%Z)
  /\ (exists code st3 rho',
     transpile_expr (BIN_OP (IDENTIFIER "a") (NUMBER 5) NE) state_with_a = Ok ("3", st3)
     /\ output_string st3 = unlines ["li 4 5"] +:+ code
     /\ Machine.run (unlines ["li 4 5"] +:+ code) (fun r => if (r =? 5)%N then 5%Z else 0%Z)
        = Some rho'
     /\ rho' 3%N = 0%Z).
Proof.
  split.
  - destruct (relational_operators_compute (IDENTIFIER "a") (NUMBER 5) EQ
                state_with_a state_with_a
                (mkTranspiler ∅ [# false; false; false; false; true; true; true; true]
                   (<["a" := "5"]> ∅) ∅ (unlines ["li 4 5"]) [])
                5 4 3 2)
      as (code & st3 & H1 & H2 & H3);
      [reflexivity|lia|lia|reflexivity|reflexivity|reflexivity|reflexivity|].
    destruct (H3 (Machine.write 4 5 (fun r => if (r =? 5)%N then 5%Z else 0%Z)))
      as (rho' & H4 & H5).
    exists code, st3, rho'. split; [exact H1|]. split; [exact H2|].
    split; [|exact H5].
    unfold Machine.run.
    change (unlines ["li 4 5"] +:+ code) with ("li 4 5" +:+ NL +:+ code).
    rewrite (getlines_line "li 4 5" code eq_refl). exact H4.
  - destruct (relational_operators_compute (IDENTIFIER "a") (NUMBER 5) NE
                state_with_a state_with_a
                (mkTranspiler ∅ [# false; false; false; false; true; true; true; true]
                   (<["a" := "5"]> ∅) ∅ (unlines ["li 4 5"]) [])
                5 4 3 0)
      as (code & st3 & H1 & H2 & H3);
      [reflexivity|lia|lia|reflexivity|reflexivity|reflexivity|discriminate|].
    destruct (H3 (Machine.write 4 5 (fun r => if (r =? 5)%N then 5%Z else 0%Z)))
      as (rho' & H4 & H5).
    exists code, st3, rho'. split; [exact H1|]. split; [exact H2|].
    split; [|exact H5].
    unfold Machine.run.
    change (unlines ["li 4 5"] +:+ code) with ("li 4 5" +:+ NL +:+ code).
    rewrite (getlines_line "li 4 5" code eq_refl). exact H4.
Defined.

(** C2 (counterexample). With [a] holding 5, the code for [a == 5] leaves 1
    in the result register, which is not 1 - cmpGT(1, a - 5) = 0; and with
    [a] holding 1 the code for [a <= 2] leaves 2^64 - 1, which is not
    1 - cmpGT(1, 2) = 1. *)
Lemma equality_is_not_one_minus_cmpGT :
  (output_string <$>
     match transpile_expr (BIN_OP (IDENTIFIER "a") (NUMBER 5) EQ) state_with_a with
     | Ok (_, st') => Some st'
     | _ => None
     end)
  = Some (unlines ["li 4 5"; "sub 5 4 3"; "li 2 1"; "cmpGT 2 3 3"])
  /\ ((fun rho : Machine.file => rho 3%N)
        <$> Machine.run (unlines ["li 4 5"; "sub 5 4 3"; "li 2 1"; "cmpGT 2 3 3"])
              (fun r => if (r =? 5)%N then 5%Z else 0%Z))
     = Some 1%Z
  /\ 1%Z <> Machine.word64 (1 - Machine.cmpGT 1 (Machine.word64 (5 - 5)))
  /\ (output_string <$>
     match transpile_expr (BIN_OP (IDENTIFIER "a") (NUMBER 2) LE) state_with_a with
     | Ok (_, st') => Some st'
     | _ => None
     end)
  = Some (unlines ["li 4 2"; "cmpGT 5 4 3"; "li 2 1"; "sub 3 2 3"])
  /\ ((fun rho : Machine.file => rho 3%N)
        <$> Machine.run (unlines ["li 4 2"; "cmpGT 5 4 3"; "li 2 1"; "sub 3 2 3"])
              (fun r => if (r =? 5)%N then 1%Z else 0%Z))
     = Some 18446744073709551615%Z
  /\ 18446744073709551615%Z <> Machine.word64 (1 - Machine.cmpGT 1 2).
Proof.
  split; [vm_compute; reflexivity|].
  split; [vm_compute; reflexivity|].
  split; [vm_compute; discriminate|].
  split; [vm_compute; reflexivity|].
  split; [vm_compute; reflexivity|].
  vm_compute; discriminate.
Qed.

(** ** The instruction text is append-only *)

Section AppendOnly.

Variable base : string.

Abbreviation grows c := (keeps (extends base) c (fun _ => True)).

Lemma grows_emit (s : string) : grows (emit s).
Proof.
  intros st [] st' [t Ht] [= <-]. split; [|exact I].
  exists (t +:+ s). simpl. now rewrite Ht, app_assoc.
Qed.

Lemma grows_printf (s : string) : grows (printf s).
Proof. intros st [] st' Hst [= <-]. now split. Qed.

Lemma grows_get_free_register : grows get_free_register.
Proof.
  intros st r st' Hst H. rewrite get_free_register_eq in H. injection H as <- <-.
  split; [|exact I]. destruct (highest_free (occupiedRegister st)); exact Hst.
Qed.

Lemma grows_mark (i : Z) (b : bool) : grows (mark i b).
Proof.
  intros st [] st' Hst H. unfold mark in H.
  destruct (i <? 0)%Z; [discriminate|].
  destruct (fin_of_nat NUMBER_REGISTERS (Z.to_nat i)); [|discriminate].
  injection H as <-. now split.
Qed.

Lemma grows_mark_register (r : string) (b : bool) : grows (mark_register r b).
Proof.
  intros st u st' Hst H. unfold mark_register in H.
  destruct (stoi r); [|discriminate|discriminate].
  exact (grows_mark _ _ _ _ _ Hst H).
Qed.

Lemma grows_set_registers (m : gmap string string) : grows (set_registers m).
Proof. intros st [] st' Hst [= <-]. now split. Qed.

Lemma grows_set_occupiedRegister (v : vec bool NUMBER_REGISTERS) :
  grows (set_occupiedRegister v).
Proof. intros st [] st' Hst [= <-]. now split. Qed.

Lemma grows_get_registers : grows get_registers.
Proof. intros st m st' Hst [= <- <-]. now split. Qed.

Lemma grows_get_occupiedRegister : grows get_occupiedRegister.
Proof. intros st m st' Hst [= <- <-]. now split. Qed.

Lemma grows_occupied (i : nat) : grows (occupied i).
Proof.
  intros st b st' Hst H. unfold occupied in H.
  destruct (vec_to_list (occupiedRegister st) !! i); [|discriminate].
  injection H as <- <-. now split.
Qed.

Lemma grows_identifier_value (e : ExprNode) : grows (identifier_value e).
Proof. destruct e; try apply keeps_undefined. now apply keeps_ret. Qed.

Ltac growing :=
  repeat first
    [ apply keeps_ret; exact I
    | apply keeps_undefined
    | apply grows_emit
    | apply grows_printf
    | apply grows_get_free_register
    | apply grows_mark_register
    | apply grows_mark
    | apply grows_set_registers
    | apply grows_set_occupiedRegister
    | apply grows_get_registers
    | apply grows_get_occupiedRegister
    | apply grows_occupied
    | apply grows_identifier_value
    | eassumption
    | eapply keeps_bind; [|intros ? _]
    | match goal with
      | |- keeps _ (if ?b then _ else _) _ => destruct b
      | |- keeps _ (match ?x with _ => _ end) _ => destruct x
      end ].

Lemma grows_bind_register (key r : string) : grows (bind_register key r).
Proof. unfold bind_register. growing. Qed.













Lemma StatementNode_ind_nested (P : StatementNode -> Prop) :
  (forall statements, Forall P statements -> P (SCOPE statements)) ->
  (forall expr, P (RETURN expr)) ->
  (forall condition statement else_statement,
     P statement -> (forall s2, else_statement = Some s2 -> P s2) ->
     P (BRANCH condition statement else_statement)) ->
  (forall e, P (STATEMENT e)) ->
  forall s, P s.
Proof.
  intros Hs Hr Hb He.
  fix IH 1. intros [l|e|c s [s2|]|e].
  - apply Hs. induction l as [|a l IHl]; constructor; [apply IH|exact IHl].
  - apply Hr.
  - apply Hb; [apply IH|]. intros s2' [= <-]. apply IH.
  - apply Hb; [apply IH|]. intros s2' [=].
  - apply He.
Qed.


End AppendOnly.

(** ** Branches *)









(** ** Label resolution *)






(** ** The loop that removes the markers terminates within its fuel *)

Lemma length_app (a b : string) :
  String.length (a +:+ b) = (String.length a + String.length b)%nat.
Proof.
  induction a as [|c a IH]; [reflexivity|]. rewrite app_cons. simpl. now rewrite IH.
Qed.

Lemma length_substring (s : string) :
  forall n m : nat,
    String.length (String.substring n m s) = Nat.min m (String.length s - n).
Proof.
  induction s as [|c s IH]; intros n m.
  - destruct n, m; reflexivity.
  - destruct n as [|n].
    + destruct m as [|m]; [reflexivity|]. simpl. rewrite IH. now rewrite Nat.sub_0_r.
    + simpl. apply IH.
Qed.

Lemma length_substr (s : string) :
  forall n : nat, String.length (substr n s) = (String.length s - n)%nat.
Proof.
  induction s as [|c s IH]; intros [|n]; try reflexivity. simpl. apply IH.
Qed.

Lemma find_bound (pat : string) (pos p : nat) (s : string) :
  pat <> EmptyString -> find pat pos s = Some p ->
  (p + String.length pat <= String.length s)%nat.
Proof.
  intros Hpat H. unfold find in H. apply String.index_correct1 in H.
  assert (L : String.length (String.substring p (String.length pat) s)
              = String.length pat) by now rewrite H.
  rewrite length_substring in L.
  destruct pat as [|c pat]; [contradiction|].
  change (String.length (String c pat)) with (S (String.length pat)) in *. lia.
Qed.

Lemma length_erase (p len : nat) (s : string) :
  (p + len <= String.length s)%nat ->
  String.length (erase p len s) = (String.length s - len)%nat.
Proof.
  intros H. unfold erase. rewrite length_app, length_substring, length_substr. lia.
Qed.

(** More fuel than the length of the text never changes the result. *)
Lemma erase_markers_fuel (label_str : string) (step : nat) :
  label_str <> EmptyString ->
  forall (fuel1 fuel2 pos : nat) (s : string),
    (String.length s < fuel1)%nat -> (String.length s < fuel2)%nat ->
    erase_markers fuel1 label_str step pos s = erase_markers fuel2 label_str step pos s.
Proof.
  intros Hpat. induction fuel1 as [|fuel1 IH]; intros fuel2 pos s H1 H2; [lia|].
  destruct fuel2 as [|fuel2]; [lia|]. simpl.
  destruct (find label_str pos s) as [p|] eqn:E; [|reflexivity].
  pose proof (find_bound _ _ _ _ Hpat E) as Hb.
  assert (0 < String.length label_str)%nat
    by (destruct label_str; [contradiction|simpl; lia]).
  apply IH; rewrite length_erase by exact Hb; lia.
Qed.

(** The loop is at its fixed point when it returns: no marker is found from
    the final position on, or the text is used up. *)
Lemma replace_label_fuel (output_string : string) (label : string * N) (fuel : nat) :
  (String.length output_string < fuel)%nat ->
  replace_label output_string label
  = regex_replace_li (fst label) (to_string (snd label)) 0
      (erase_markers fuel (fst label +:+ ":") (String.length (to_string (snd label))) 0
         output_string).
Proof.
  intros H. unfold replace_label. f_equal.
  apply erase_markers_fuel; [|lia|exact H].
  destruct (fst label); discriminate.
Qed.

(** ** The symbol tables stay plain throughout a run *)

Section Tables.

Abbreviation stays c phi := (keeps tables_ok c phi).
Abbreviation one_line_text := (fun r : string => no_nl r = true).
Abbreviation any := (fun _ => True).

Lemma stays_emit (s : string) : stays (emit s) any.
Proof. intros st [] st' Hst H. injection H as <-. now split. Qed.

Lemma stays_printf (s : string) : stays (printf s) any.
Proof. intros st [] st' Hst H. injection H as <-. now split. Qed.

Lemma stays_get_free_register : stays get_free_register reg_ok.
Proof.
  intros st r st' Hst H. rewrite get_free_register_eq in H. injection H as <- <-.
  split; [|apply register_text_reg_ok].
  destruct (highest_free (occupiedRegister st)); exact Hst.
Qed.

Lemma stays_mark (i : Z) (b : bool) : stays (mark i b) any.
Proof.
  intros st [] st' Hst H. unfold mark in H.
  destruct (i <? 0)%Z; [discriminate|].
  destruct (fin_of_nat NUMBER_REGISTERS (Z.to_nat i)); [|discriminate].
  injection H as <-. now split.
Qed.

Lemma stays_mark_register (r : string) (b : bool) : stays (mark_register r b) any.
Proof.
  intros st u st' Hst H. unfold mark_register in H.
  destruct (stoi r); [|discriminate|discriminate].
  exact (stays_mark _ _ _ _ _ Hst H).
Qed.

Lemma stays_set_occupiedRegister (v : vec bool NUMBER_REGISTERS) :
  stays (set_occupiedRegister v) any.
Proof. intros st [] st' Hst H. injection H as <-. now split. Qed.

Lemma stays_set_registers (m : gmap string string) :
  map_Forall (fun _ v => reg_ok v) m -> stays (set_registers m) any.
Proof.
  intros Hm st [] st' [_ Hpa] H. injection H as <-. split; [|exact I].
  split; [exact Hm|exact Hpa].
Qed.

Lemma stays_get_registers :
  stays get_registers (fun m => map_Forall (fun _ v => reg_ok v) m).
Proof. intros st m st' Hst H. injection H as <- <-. split; [exact Hst|apply Hst]. Qed.

Lemma stays_bind_register (key r : string) :
  reg_ok r -> stays (bind_register key r) any.
Proof.
  intros Hr. unfold bind_register.
  eapply keeps_bind; [apply stays_get_registers|].
  intros m Hm. apply stays_set_registers. now apply map_Forall_insert_2.
Qed.

Lemma stays_identifier_value (e : ExprNode) : stays (identifier_value e) any.
Proof. destruct e; try apply keeps_undefined. now apply keeps_ret. Qed.

Lemma stays_occupied (i : nat) : stays (occupied i) any.
Proof.
  intros st b st' Hst H. unfold occupied in H.
  destruct (vec_to_list (occupiedRegister st) !! i); [|discriminate].
  injection H as <- <-. now split.
Qed.

Lemma stays_get_occupiedRegister : stays get_occupiedRegister any.
Proof. intros st v st' Hst H. injection H as <- <-. now split. Qed.

Ltac staying :=
  repeat first
    [ apply keeps_ret; first [exact I | reflexivity | assumption
                             | match goal with H : reg_ok _ |- _ => exact (proj1 H) end]
    | apply keeps_undefined
    | apply stays_emit
    | apply stays_printf
    | apply stays_mark_register
    | apply stays_mark
    | apply stays_set_occupiedRegister
    | apply stays_occupied
    | apply stays_identifier_value
    | apply stays_get_occupiedRegister
    | apply stays_bind_register; first [assumption | now split]
    | eapply keeps_bind; [apply stays_get_free_register|intros ? ?]
    | eapply keeps_bind;
      [first [ apply stays_emit | apply stays_mark_register | apply stays_mark
             | apply stays_identifier_value | apply stays_occupied
             | apply stays_get_occupiedRegister | apply stays_printf
             | apply stays_set_occupiedRegister
             | apply stays_bind_register; first [assumption | now split] ]
      |intros ? _] ].

Lemma stays_push_registers (occ : vec bool NUMBER_REGISTERS) :
  stays (push_registers occ) any.
Proof. unfold push_registers. staying. Qed.

Lemma stays_pop_registers (occ : vec bool NUMBER_REGISTERS) (label : string) :
  stays (pop_registers occ label) any.
Proof. unfold pop_registers. staying. Qed.

Lemma stays_load_operand (node : ExprNode) (descriptor : string) :
  no_nl descriptor = true -> stays (load_operand node descriptor) one_line_text.
Proof.
  intros H. unfold load_operand.
  destruct (starts_with PRIV_PREFIX descriptor); staying.
Qed.

Lemma stays_transpile_operator (op : BinOpType) (l r : string) :
  stays (transpile_operator op l r) one_line_text.
Proof. unfold transpile_operator. destruct op; staying. Qed.

Lemma stays_transpile_assignment (lhs : ExprNode) (l r : string) :
  no_nl l = true -> no_nl r = true ->
  stays (transpile_assignment lhs l r) one_line_text.
Proof.
  intros Hl Hr. unfold transpile_assignment.
  destruct (starts_with PRIV_PREFIX l);
    destruct (starts_with PRIV_PREFIX r) eqn:E; staying.
Qed.

Lemma stays_transpile_number (value : N) : stays (transpile_number value) one_line_text.
Proof. unfold transpile_number. staying. Qed.

Lemma stays_transpile_syscall_number (syscall : SysCall_Type) :
  stays (transpile_syscall_number syscall) any.
Proof. unfold transpile_syscall_number. destruct syscall; staying. Qed.

Lemma stays_transpile_identifier (value : string) :
  stays (transpile_identifier value) one_line_text.
Proof.
  intros st r st' Hst H. unfold transpile_identifier in H.
  assert (Hnew : stays
            (let* value_register := get_free_register in
             mark_register value_register true ;;
             bind_register value value_register ;;
             ret value_register) one_line_text).
  { staying. }
  destruct (default false (privilegedObjects st !! value)).
  { injection H as <- <-. split; [exact Hst|].
    change (no_nl (PRIV_PREFIX +:+ default "" (privilegedAddresses st !! value)) = true).
    rewrite no_nl_app.
    destruct (privilegedAddresses st !! value) as [a|] eqn:E; [|reflexivity].
    exact (map_Forall_lookup_1 _ _ _ _ (proj2 Hst) E). }
  destruct (registers st !! value) as [v|] eqn:E; simpl in H.
  - destruct v as [|c v].
    + exact (Hnew _ _ _ Hst H).
    + injection H as <- <-. split; [exact Hst|].
      exact (proj1 (map_Forall_lookup_1 _ _ _ _ (proj1 Hst) E)).
  - exact (Hnew _ _ _ Hst H).
Qed.

Lemma stays_syscall_arguments (f : ExprNode -> M string) (args : list ExprNode) :
  Forall (fun e => stays (f e) one_line_text) args ->
  forall i, stays (syscall_arguments f i args) any.
Proof.
  induction 1 as [|arg rest Harg _ IH]; intros i; simpl.
  - now apply keeps_ret.
  - eapply keeps_bind; [apply stays_occupied|]. intros taken _.
    eapply keeps_bind with (phi := any).
    { destruct taken; [|apply stays_mark].
      eapply keeps_bind; [apply stays_identifier_value|]. intros name _.
      eapply keeps_bind; [apply stays_get_registers|]. intros regs Hregs.
      destruct (regs !! name); [|apply keeps_undefined].
      eapply keeps_bind.
      { apply stays_set_registers. apply map_Forall_insert_2; [|exact Hregs].
        apply to_string_reg_ok. }
      intros _ _. staying. }
    intros _ _.
    eapply keeps_bind; [apply stays_emit|]. intros _ _.
    eapply keeps_bind; [exact Harg|]. intros value_register Hv.
    eapply keeps_bind; [apply stays_emit|]. intros _ _.
    apply IH.
Qed.

Lemma stays_call_arguments (f : ExprNode -> M string) (args : list ExprNode) :
  Forall (fun e => stays (f e) one_line_text) args ->
  forall i, stays (call_arguments f i args) any.
Proof.
  induction 1 as [|arg rest Harg _ IH]; intros i; simpl.
  - now apply keeps_ret.
  - eapply keeps_bind; [exact Harg|]. intros result_register Hr.
    staying. apply IH.
Qed.

Lemma stays_transpile_expr (e : ExprNode) : stays (transpile_expr e) one_line_text.
Proof.
  induction e as [e IH|v|n|l r op IHl IHr|f args IH|sc args IH]
    using ExprNode_ind_nested.
  - exact IH.
  - apply stays_transpile_identifier.
  - apply stays_transpile_number.
  - rewrite transpile_expr_bin_op.
    eapply keeps_bind; [exact IHl|]. intros lhs_register Hl.
    eapply keeps_bind; [exact IHr|]. intros rhs_register Hr.
    destruct op;
      try (eapply keeps_bind; [now apply stays_load_operand|]; intros left_reg _;
           eapply keeps_bind; [now apply stays_load_operand|]; intros right_reg _;
           apply stays_transpile_operator).
    now apply stays_transpile_assignment.
  - simpl. unfold transpile_func_call_body.
    eapply keeps_bind; [apply stays_get_occupiedRegister|]. intros occ _.
    eapply keeps_bind; [apply stays_push_registers|]. intros pushed _.
    eapply keeps_bind; [apply stays_emit|]. intros _ _.
    eapply keeps_bind; [apply stays_get_occupiedRegister|]. intros occ' _.
    eapply keeps_bind; [apply stays_pop_registers|]. intros popped _.
    eapply keeps_bind; [now apply stays_call_arguments|]. intros _ _.
    staying.
  - simpl. unfold transpile_sys_call_body.
    eapply keeps_bind; [now apply stays_syscall_arguments|]. intros _ _.
    eapply keeps_bind; [apply stays_transpile_syscall_number|]. intros n _.
    staying.
Qed.

Lemma stays_transpile_return (expr : option ExprNode) : stays (transpile_return expr) any.
Proof.
  unfold transpile_return. apply keeps_bind with (phi := any).
  - destruct expr as [e|]; [|now apply keeps_ret].
    eapply keeps_bind; [apply stays_transpile_expr|]. intros r _. staying.
  - intros _ _. staying.
Qed.

Lemma stays_transpile_statement (s : StatementNode) :
  forall unknown, stays (transpile_statement unknown s) any.
Proof.
  induction s as [l IH|e|c s e IHs IHe|e] using StatementNode_ind_nested;
    intros unknown.
  - simpl. induction IH as [|a l Ha _ IHl]; [now apply keeps_ret|].
    eapply keeps_bind; [apply Ha|]. intros _ _. exact IHl.
  - simpl. eapply keeps_bind; [apply stays_transpile_return|]. intros _ _.
    now apply keeps_ret.
  - simpl.
    eapply keeps_bind; [apply stays_transpile_expr|]. intros reg _.
    eapply keeps_bind; [apply stays_get_free_register|]. intros r1 _.
    eapply keeps_bind; [apply stays_emit|]. intros _ _.
    eapply keeps_bind; [apply stays_emit|]. intros _ _.
    eapply keeps_bind; [apply IHs|]. intros _ _.
    eapply keeps_bind; [apply stays_get_free_register|]. intros f _.
    eapply keeps_bind; [apply stays_mark_register|]. intros _ _.
    eapply keeps_bind; [apply stays_get_free_register|]. intros r2 _.
    eapply keeps_bind; [apply stays_mark_register|]. intros _ _.
    eapply keeps_bind; [apply stays_emit|]. intros _ _.
    eapply keeps_bind; [apply stays_emit|]. intros _ _.
    eapply keeps_bind; [apply stays_emit|]. intros _ _.
    eapply keeps_bind; [apply stays_emit|]. intros _ _.
    eapply keeps_bind with (phi := any).
    { destruct e as [s2|]; [now apply (IHe s2)|now apply keeps_ret]. }
    intros _ _.
    eapply keeps_bind; [apply stays_emit|]. intros _ _.
    apply stays_mark_register.
  - simpl. destruct e; try apply stays_printf.
    eapply keeps_bind; [apply (stays_transpile_expr (EXPR e))|]. intros _ _.
    now apply keeps_ret.
Qed.

Lemma parameter_text_reg_ok (i : nat) :
  (i < NUMBER_REGISTERS)%nat -> reg_ok (String (ascii_of_nat i) EmptyString).
Proof. unfold NUMBER_REGISTERS. intros H. small i; split; reflexivity. Qed.

Lemma stays_bind_parameters (params : list string) :
  forall num_param, stays (bind_parameters num_param params) any.
Proof.
  induction params as [|parameter rest IH]; intros n; cbn [bind_parameters].
  - now apply keeps_ret.
  - destruct (NUMBER_REGISTERS <=? n)%nat eqn:E.
    + staying.
    + apply Nat.leb_gt in E.
      eapply keeps_bind; [apply stays_bind_register; now apply parameter_text_reg_ok|].
      intros _ _. eapply keeps_bind; [apply stays_mark|]. intros _ _. apply IH.
Qed.

Lemma stays_transpile_functions (funcDefNodes : list FuncDefNode) :
  stays (transpile_functions funcDefNodes) any.
Proof.
  induction funcDefNodes as [|f rest IH]; simpl.
  - now apply keeps_ret.
  - eapply keeps_bind; [apply stays_emit|]. intros _ _.
    eapply keeps_bind with (phi := any).
    { destruct (String.eqb (fd_identifier f) "main"); staying. }
    intros _ _.
    eapply keeps_bind; [apply stays_set_occupiedRegister|]. intros _ _.
    eapply keeps_bind; [apply stays_set_registers; apply map_Forall_empty|]. intros _ _.
    eapply keeps_bind; [apply stays_mark|]. intros _ _.
    eapply keeps_bind; [apply stays_mark|]. intros _ _.
    eapply keeps_bind; [apply stays_bind_parameters|]. intros bound _.
    destruct bound; [|now apply keeps_ret].
    eapply keeps_bind; [apply stays_transpile_statement|]. intros _ _.
    exact IH.
Qed.

Lemma initial_tables_ok (root : ProgramNode) : tables_ok (initial root).
Proof.
  unfold initial.
  assert (H : tables_ok (mkTranspiler ∅ (vreplicate NUMBER_REGISTERS false) ∅ ∅ "" [])).
  { split; apply map_Forall_empty. }
  revert H. generalize (mkTranspiler ∅ (vreplicate NUMBER_REGISTERS false) ∅ ∅ "" []).
  induction (privObjNodes root) as [|p l IH]; intros st Hst; [exact Hst|].
  simpl. apply IH. destruct Hst as [Hr Hp]. split; [exact Hr|].
  apply map_Forall_insert_2; [apply to_string_no_nl|exact Hp].
Qed.

(** Wherever code generation of a program has come, the symbol tables are
    plain: the hypothesis of the theorem on unprivileged expressions holds in
    the states the generators run in. *)
Lemma tables_ok_after_generation (root : ProgramNode) (completed : bool)
    (st : transpiler) :
  transpile_functions (funcDefNodes root) (initial root) = Ok (completed, st) ->
  tables_ok st.
Proof.
  intros H.
  exact (proj1 (stays_transpile_functions _ _ _ _ (initial_tables_ok root) H)).
Qed.

End Tables.

(** ** More on the allocator and on parameters *)

Lemma scan_free_none (n : nat) (occ : vec bool NUMBER_REGISTERS) :
  scan_free n occ = None ->
  forall j, (j < n)%nat -> vec_to_list occ !! j <> Some false.
Proof.
  induction n as [|n IH]; simpl; intros H j Hj; [lia|].
  destruct (vec_to_list occ !! n) as [[|]|] eqn:E; try discriminate;
    (destruct (decide (j = n)) as [->|]; [congruence|apply IH; [exact H|lia]]).
Qed.

Lemma is_occupied_lookup (occ : vec bool NUMBER_REGISTERS) (i : nat) :
  (i < NUMBER_REGISTERS)%nat ->
  vec_to_list occ !! i = Some (is_occupied occ i).
Proof.
  intros H. unfold is_occupied.
  destruct (vec_to_list occ !! i) eqn:E; [reflexivity|].
  apply lookup_ge_None in E. rewrite length_vec_to_list in E. lia.
Qed.

(** [highest_free] is the highest free index: it is free and every index
    above it is occupied. *)
Lemma highest_free_spec (occ : vec bool NUMBER_REGISTERS) (i : nat) :
  highest_free occ = Some i <->
  (i < NUMBER_REGISTERS)%nat /\ is_occupied occ i = false
  /\ forall j, (i < j < NUMBER_REGISTERS)%nat -> is_occupied occ j = true.
Proof.
  rewrite <- scan_free_highest. split.
  - intros H. apply scan_free_spec in H as (Hi & Hf & Ha).
    split; [exact Hi|]. split.
    + rewrite (is_occupied_lookup occ i Hi) in Hf. congruence.
    + intros j Hj. specialize (Ha j Hj).
      rewrite (is_occupied_lookup occ j) in Ha by lia.
      destruct (is_occupied occ j); congruence.
  - intros (Hi & Hf & Ha).
    destruct (scan_free NUMBER_REGISTERS occ) as [k|] eqn:E.
    + apply scan_free_spec in E as (Hk & Hkf & Hka).
      destruct (Nat.lt_trichotomy k i) as [Hlt|[->|Hgt]]; [|reflexivity|].
      * exfalso. apply (Hka i); [lia|].
        now rewrite (is_occupied_lookup occ i Hi), Hf.
      * exfalso. rewrite (is_occupied_lookup occ k Hk) in Hkf.
        rewrite (Ha k) in Hkf by lia. discriminate.
    + exfalso. apply (scan_free_none _ _ E i Hi).
      now rewrite (is_occupied_lookup occ i Hi), Hf.
Qed.

(** With every register occupied the allocator prints its message and
    returns the text "Error"; the run goes on. *)
Lemma get_free_register_exhausted (st : transpiler) :
  highest_free (occupiedRegister st) = None ->
  get_free_register st
  = Ok ("Error",
        mkTranspiler (privilegedObjects st) (occupiedRegister st) (registers st)
          (privilegedAddresses st) (output_string st)
          (printed st ++ ["Error: no free registers" +:+ NL])).
Proof. intros H. rewrite get_free_register_eq, H. reflexivity. Qed.

Lemma starts_with_app (p a : string) : starts_with p (p +:+ a) = true.
Proof.
  unfold starts_with. induction p as [|c p IH]; [destruct a; reflexivity|].
  rewrite app_cons, prefix_cons. destruct (ascii_dec c c); [exact IH|contradiction].
Qed.

Lemma substr_app (p a : string) : substr (String.length p) (p +:+ a) = a.
Proof. induction p as [|c p IH]; [reflexivity|exact IH]. Qed.

(** The write sequence for a privileged left-hand side whose right-hand side
    is in a register, when two registers are free: the value is generated
    first, then address and budget 20 are staged, one request on the address
    of the assigned identifier follows, and the store comes last. *)
Lemma privileged_write_sequence
    (x : string) (rhs : ExprNode) (st st1 : transpiler) (address r : string)
    (fl fc : nat) :
  privilegedObjects st !! x = Some true ->
  privilegedAddresses st !! x = Some address ->
  transpile_expr rhs st = Ok (r, st1) ->
  starts_with PRIV_PREFIX r = false ->
  highest_free (occupiedRegister st1) = Some fl ->
  highest_free (update fl true (occupiedRegister st1)) = Some fc ->
  exists st2,
    transpile_expr (BIN_OP (IDENTIFIER x) rhs ASS) st = Ok (r, st2)
    /\ output_string st2
       = output_string st1
         +:+ unlines ["li " +:+ to_string (N.of_nat fl) +:+ " " +:+ address;
                      "li " +:+ to_string (N.of_nat fc) +:+ " " +:+ STORE_CYCLES;
                      "request " +:+ to_string (N.of_nat fl) +:+ " "
                                 +:+ to_string (N.of_nat fc);
                      "store " +:+ to_string (N.of_nat fl) +:+ " " +:+ r].
Proof.
  intros Hpo Hpa Hrhs Hr Hfl Hfc.
  pose proof (highest_free_small _ _ Hfl) as Hlt.
  rewrite transpile_expr_bin_op.
  assert (Hl : transpile_expr (IDENTIFIER x) st = Ok (PRIV_PREFIX +:+ address, st)).
  { simpl. unfold transpile_identifier. now rewrite Hpo, Hpa. }
  rewrite (bind_eq _ _ _ _ _ Hl), (bind_eq _ _ _ _ _ Hrhs).
  cbv beta. unfold transpile_assignment.
  rewrite starts_with_app, Hr, substr_app.
  erewrite bind_eq; [|apply get_free_register_some; exact Hfl].
  erewrite bind_eq; [|apply mark_register_small; exact Hlt].
  erewrite bind_eq; [|apply emit_eq].
  erewrite bind_eq; [|apply get_free_register_some; exact Hfc].
  erewrite bind_eq; [|apply mark_register_small; exact Hlt].
  erewrite bind_eq; [|apply emit_eq].
  erewrite bind_eq; [|apply emit_eq].
  erewrite bind_eq; [|apply emit_eq].
  unfold identifier_value, bind_register, get_registers, set_registers, bind, ret.
  eexists. split; [reflexivity|].
  simpl. rewrite ?app_assoc, ?app_nil_r. reflexivity.
Qed.

(** The parameter loop binds the parameter at position [i] to the
    one-character string with code [num_param + i]. *)
Lemma bind_parameters_binds (params : list string) :
  forall (num_param : nat) (st st' : transpiler),
    NoDup params ->
    bind_parameters num_param params st = Ok (true, st') ->
    (forall i p, params !! i = Some p ->
       registers st' !! p = Some (String (ascii_of_nat (num_param + i)) EmptyString))
    /\ (forall q, q ∉ params -> registers st' !! q = registers st !! q).
Proof.
  induction params as [|parameter rest IH]; intros n st st' Hnd H.
  - injection H as <-. split; [intros i p Hp; discriminate Hp|reflexivity].
  - cbn [bind_parameters] in H.
    destruct (NUMBER_REGISTERS <=? n)%nat eqn:E.
    { apply bind_Ok in H as (u & s1 & _ & H). discriminate H. }
    apply Nat.leb_gt in E.
    apply bind_Ok in H as (u1 & s1 & H1 & H).
    apply bind_Ok in H as (u2 & s2 & H2 & H).
    unfold bind_register, get_registers, set_registers, bind in H1.
    injection H1 as _ <-.
    rewrite (mark_small n true _ E) in H2. injection H2 as _ <-.
    apply NoDup_cons in Hnd as [Hnotin Hnd].
    destruct (IH (S n) _ st' Hnd H) as [Hi Hq]. split.
    + intros [|i] p Hp.
      * injection Hp as <-. rewrite (Hq parameter Hnotin). simpl.
        rewrite Nat.add_0_r. apply lookup_insert_eq.
      * rewrite (Hi i p Hp). now rewrite Nat.add_succ_r.
    + intros q Hq'. apply not_elem_of_cons in Hq' as [Hne Hq'].
      rewrite (Hq q Hq'). simpl. now apply lookup_insert_ne.
Qed.

(** More parameters than registers: the loop prints its message and makes
    [transpile] return before anything is written. *)
Lemma bind_parameters_overflow (params : list string) :
  forall (num_param : nat) (st : transpiler),
    (num_param <= NUMBER_REGISTERS)%nat ->
    (NUMBER_REGISTERS < num_param + length params)%nat ->
    exists st',
      bind_parameters num_param params st = Ok (false, st')
      /\ printed st' = (printed st ++ ["Error: too many parameters" +:+ NL])%list.
Proof.
  induction params as [|parameter rest IH]; intros n st Hn Hlen.
  - simpl in Hlen. lia.
  - cbn [bind_parameters].
    destruct (NUMBER_REGISTERS <=? n)%nat eqn:E.
    + eexists. split; reflexivity.
    + apply Nat.leb_gt in E.
      unfold bind_register at 1. unfold get_registers, set_registers.
      unfold bind at 1 2 3. rewrite (mark_small n true _ E).
      destruct (IH (S n)
                  (mkTranspiler (privilegedObjects st)
                     (update n true (occupiedRegister st))
                     (<[parameter := String (ascii_of_nat n) ""]> (registers st))
                     (privilegedAddresses st) (output_string st) (printed st)))
        as (st' & H1 & H2); [lia|simpl in Hlen; lia|].
      exists st'. split; [exact H1|exact H2].
Qed.

(** ** The order of iteration over the label table *)

(** When the check [order_irrelevant] succeeds, every order in which the
    entries of the table can be visited gives the text of
    [replace_jump_labels]. *)
Lemma order_irrelevant_sound (output_string : string) (order : list (string * N)) :
  order_irrelevant output_string = true ->
  order ≡ₚ map_to_list (collect_labels output_string) ->
  replace_jump_labels_in order output_string = replace_jump_labels output_string.
Proof.
  unfold order_irrelevant. intros H Hp.
  rewrite forallb_forall in H. apply String.eqb_eq, H.
  apply list_elem_of_In, permutations_Permutation. now symmetry.
Qed.

(** ** Too many parameters *)

Lemma initial_printed (root : ProgramNode) : printed (initial root) = [].
Proof.
  unfold initial.
  assert (H : printed (mkTranspiler ∅ (vreplicate NUMBER_REGISTERS false) ∅ ∅ "" []) = [])
    by reflexivity.
  revert H. generalize (mkTranspiler ∅ (vreplicate NUMBER_REGISTERS false) ∅ ∅ "" []).
  induction (privObjNodes root) as [|p l IH]; intros st Hst; [exact Hst|].
  simpl. now apply IH.
Qed.

(** A program whose first function declares more than eight parameters is
    not compiled: the message is printed and no file is written. *)
Lemma too_many_parameters_not_written
    (privileged : list PrivObjNode) (f : FuncDefNode) (rest : list FuncDefNode) :
  (NUMBER_REGISTERS < length (fd_params f))%nat ->
  transpile {| privObjNodes := privileged; funcDefNodes := f :: rest |}
  = NotWritten ["Error: too many parameters" +:+ NL].
Proof.
  intros Hlen. unfold transpile. cbn [funcDefNodes transpile_functions].
  set (root := {| privObjNodes := privileged; funcDefNodes := f :: rest |}).
  pose proof (initial_printed root) as Hp.
  destruct (initial root) as [po occ regs pa out pr]. simpl in Hp. subst pr.
  erewrite bind_eq; [|apply emit_eq].
  assert (Hmain : exists out',
    (if String.eqb (fd_identifier f) "main"
     then emit ("li " +:+ to_string RBP +:+ " " +:+ to_string START_OF_STACK +:+ NL) ;;
          emit ("li " +:+ to_string RSP +:+ " " +:+ to_string START_OF_STACK +:+ NL)
     else ret tt) (mkTranspiler po occ regs pa (out +:+ fd_identifier f +:+ ":") [])
    = Ok (tt, mkTranspiler po occ regs pa out' [])).
  { destruct (String.eqb (fd_identifier f) "main"); eexists; reflexivity. }
  destruct Hmain as [out' Hmain]. simpl in Hmain.
  erewrite bind_eq; [|exact Hmain].
  erewrite bind_eq; [|reflexivity].
  erewrite bind_eq; [|reflexivity].
  erewrite bind_eq; [|reflexivity].
  erewrite bind_eq; [|reflexivity].
  match goal with
  | |- context [bind (bind_parameters 0 ?ps) _ ?st] =>
      destruct (bind_parameters_overflow ps 0 st) as (st' & H1 & H2);
        [unfold NUMBER_REGISTERS; lia|simpl; exact Hlen|]
  end.
  erewrite bind_eq; [|exact H1].
  simpl. unfold ret. now rewrite H2.
Qed.
